(** * Heroic to Lutris game importer: model of [main.py] and its properties

    The script reads Heroic's sideload manifest and per-game option files and
    writes, for each installed game, one YAML configuration file and one row
    of the [games] table of Lutris' [pga.db].

    The development follows the script top to bottom:
    - Python strings, [str.lower], [str.replace] and [create_slug];
    - JSON values as [json.load] returns them, [dict.get], truthiness;
    - [os.path.dirname];
    - [get_heroic_game_config];
    - the per-game loop of [add_heroic_games_to_lutris] as a state-passing
      step function over the file store, the pending transaction and the
      console log;
    - [main]. *)

From Stdlib Require Import String Ascii NArith ZArith DecimalString.
From stdpp Require Import base option list gmap.

#[local] Set Warnings "-register-all".
Local Open Scope N_scope.

(** ** Python strings *)

(** A [str] is a sequence of Unicode code points. *)
Definition pystr := list N.

(** String literals of the script that are pure ASCII. *)
Definition py (s : string) : pystr := map N_of_ascii (list_ascii_of_string s).

Definition cp_space : N := 32.
Definition cp_hyphen : N := 45.
Definition cp_colon : N := 58.
Definition cp_apostrophe : N := 39.
Definition cp_registered : N := 174.   (* U+00AE *)
Definition cp_trade_mark : N := 8482.  (* U+2122 *)
Definition cp_full_stop : N := 46.
Definition cp_ampersand : N := 38.
Definition cp_slash : N := 47.

(** [str.lower] on one ASCII code point. *)
Definition ascii_lower (c : N) : N :=
  if (65 <=? c) && (c <=? 90) then c + 32 else c.

(** [old] is a prefix of [s]. *)
Fixpoint starts_with (old s : pystr) : bool :=
  match old, s with
  | [], _ => true
  | _ :: _, [] => false
  | a :: old', b :: s' => (a =? b) && starts_with old' s'
  end.

(** [s.replace(old, new)] for a non-empty [old]: scan left to right, and
    after a match skip the matched characters, so that occurrences do not
    overlap.  [skip] counts the characters of the current match that are
    still to be dropped. *)
Fixpoint replace_from (old new : pystr) (skip : nat) (s : pystr) : pystr :=
  match s with
  | [] => []
  | c :: s' =>
      match skip with
      | S k => replace_from old new k s'
      | O =>
          if starts_with old s
          then new ++ replace_from old new (length old - 1) s'
          else c :: replace_from old new 0 s'
      end
  end.

(** [str.replace].  With an empty [old], Python inserts [new] before every
    character and at the end. *)
Definition replace (old new s : pystr) : pystr :=
  match old with
  | [] => new ++ flat_map (fun c => c :: new) s
  | _ :: _ => replace_from old new 0 s
  end.

Section Slug.

(** The lowercase mapping of a code point outside ASCII comes from the
    Unicode tables of the interpreter; it may depend on the position in
    the string (final sigma) and may yield several code points. *)
Variable lower_nonascii : pystr -> nat -> N -> pystr.

Definition lower_at (s : pystr) (i : nat) (c : N) : pystr :=
  if c <? 128 then [ascii_lower c] else lower_nonascii s i c.

(** [str.lower] *)
Definition lower (s : pystr) : pystr := concat (imap (lower_at s) s).

(** [create_slug(title)] *)
Definition create_slug (title : pystr) : pystr :=
  replace [cp_ampersand] (py "and")
    (replace [cp_full_stop] []
      (replace [cp_trade_mark] []
        (replace [cp_registered] []
          (replace [cp_apostrophe] []
            (replace [cp_colon] []
              (replace [cp_space] [cp_hyphen] (lower title))))))).

End Slug.

(** The characters [create_slug] deletes. *)
Definition stripped : list N :=
  [cp_colon; cp_apostrophe; cp_registered; cp_trade_mark; cp_full_stop].

Definition is_stripped (c : N) : bool := existsb (N.eqb c) stripped.

(** The derivation as the specification words it, character by character:
    a space becomes a hyphen, a stripped character disappears, an ampersand
    becomes the word and, any other character stays. *)
Definition slug_char (c : N) : pystr :=
  if c =? cp_space then [cp_hyphen]
  else if is_stripped c then []
  else if c =? cp_ampersand then py "and"
  else [c].

Definition slug_spec (lowered : pystr) : pystr := flat_map slug_char lowered.


(** ** JSON values, as [json.load] returns them

    [None], [bool], [int], [str], [list] and [dict].  Numbers are the
    integer literals; a dict is kept as the sequence of members of the
    document, a later member with the same key replacing an earlier one. *)
Inductive json :=
| JNull
| JBool (b : bool)
| JInt (z : Z)
| JStr (s : pystr)
| JArr (l : list json)
| JObj (d : list (pystr * json)).

(** Truth value of an object in [if not x]. *)
Definition truthy (v : json) : bool :=
  match v with
  | JNull => false
  | JBool b => b
  | JInt z => negb (z =? 0)%Z
  | JStr s => match s with [] => false | _ :: _ => true end
  | JArr l => match l with [] => false | _ :: _ => true end
  | JObj d => match d with [] => false | _ :: _ => true end
  end.

(** The exceptions that are not handled inside the loop body. *)
Inductive exn := AttributeError | TypeError | OverflowError | UnicodeEncodeError.

Inductive result (A : Type) :=
| Ok (a : A)
| Raise (e : exn).
Arguments Ok {A} a.
Arguments Raise {A} e.

#[global] Instance result_bind : MBind result :=
  fun A B f r => match r with Ok a => f a | Raise e => Raise e end.

(** The value a dict holds for [k]. *)
Fixpoint dict_lookup (k : pystr) (d : list (pystr * json)) : option json :=
  match d with
  | [] => None
  | (k', v) :: d' =>
      match dict_lookup k d' with
      | Some v' => Some v'
      | None => if bool_decide (k' = k) then Some v else None
      end
  end.

(** [v.get(k, default)]: only a dict has the method. *)
Definition py_get (v : json) (k : pystr) (dflt : json) : result json :=
  match v with
  | JObj d => Ok (default dflt (dict_lookup k d))
  | _ => Raise AttributeError
  end.

(** The keys of a dict in insertion order. *)
Definition dict_keys (d : list (pystr * json)) : list pystr :=
  reverse (remove_dups (reverse (d.*1))).

(** [for game in v]: the elements of a list, the characters of a string,
    the keys of a dict; nothing else is iterable. *)
Definition py_iter (v : json) : result (list json) :=
  match v with
  | JArr l => Ok l
  | JStr s => Ok (map (fun c => JStr [c]) s)
  | JObj d => Ok (map JStr (dict_keys d))
  | JNull | JBool _ | JInt _ => Raise TypeError
  end.

(** [str(n)] for an int. *)
Definition str_of_int (z : Z) : pystr := py (NilZero.string_of_int (Z.to_int z)).

(** ** [os.path.dirname] (posixpath) *)

(** [s.rfind(c) + 1]: the length of the shortest prefix of [s] that
    contains every [c] of [s]; 0 when there is none. *)
Fixpoint rfind_succ (c : N) (s : pystr) : nat :=
  match s with
  | [] => 0%nat
  | x :: s' =>
      match rfind_succ c s' with
      | O => if x =? c then 1%nat else 0%nat
      | S n => S (S n)
      end
  end.

(** [s.rstrip(c)] *)
Fixpoint rstrip (c : N) (s : pystr) : pystr :=
  match s with
  | [] => []
  | x :: s' =>
      match rstrip c s' with
      | [] => if x =? c then [] else [x]
      | r => x :: r
      end
  end.

Definition dirname (p : pystr) : pystr :=
  let head := take (rfind_succ cp_slash p) p in
  match head with
  | [] => head
  | _ :: _ => if forallb (N.eqb cp_slash) head then head else rstrip cp_slash head
  end.

(** [os.path.dirname(v)]: [os.fspath] rejects what is not a path. *)
Definition os_path_dirname (v : json) : result json :=
  match v with
  | JStr p => Ok (JStr (dirname p))
  | _ => Raise TypeError
  end.

(** ** The catalog *)

(** A value stored in a column of [games]. *)
Inductive sqlval :=
| SqlNull
| SqlInt (z : Z)
| SqlText (s : pystr).

#[global] Instance sqlval_eq_dec : EqDecision sqlval.
Proof. solve_decision. Defined.

Record row := {
  name : sqlval;
  slug : sqlval;
  runner : sqlval;
  executable : sqlval;
  directory : sqlval;
  installed : sqlval;
  configpath : sqlval
}.

(** What binding a Python object to a statement parameter gives: lists and
    dicts are of no supported type, an int must fit 64 bits, and a str is
    passed as UTF-8, which has no encoding for a surrogate. *)
Inductive bound :=
| Bound (v : sqlval)
| Unsupported
| TooLarge
| NotEncodable.

(** A str that UTF-8 can encode: no code point in U+D800..U+DFFF. *)
Definition encodable (s : pystr) : bool :=
  forallb (fun c => negb ((55296 <=? c) && (c <=? 57343))) s.

Definition sql_bind (v : json) : bound :=
  match v with
  | JNull => Bound SqlNull
  | JBool b => Bound (SqlInt (if b then 1 else 0))
  | JInt z =>
      if ((- 2 ^ 63 <=? z) && (z <? 2 ^ 63))%Z then Bound (SqlInt z) else TooLarge
  | JStr s => if encodable s then Bound (SqlText s) else NotEncodable
  | JArr _ | JObj _ => Unsupported
  end.

(** ** The environment of a run *)

(** A file of the Lutris configuration directory: a complete YAML document,
    or what a failed [yaml.dump] left behind. *)
Inductive file :=
| YamlDoc (doc : json)
| Partial.

Inductive write_outcome := Written | OpenFailed | DumpFailed.

(** [cursor.execute] of the INSERT, as far as the data does not decide it:
    it succeeds, or sqlite reports an error before the parameters are bound
    (preparing the statement, opening the transaction) or when the statement
    is stepped. *)
Inductive insert_outcome := InsertOk | ErrorBeforeBind | ErrorAtStep.

(** [GamesConfig/<app_name>.json]: not there, unreadable or not JSON, or
    parsed. *)
Inductive option_file := Absent | Unreadable | Parsed (config_data : json).

Inductive library_file := LibMissing | LibUnreadable | LibParsed (heroic_data : json).

Inductive config_dir := DirFound | DirCreated | DirUnavailable.

Record env := {
  lower_nonascii : pystr -> nat -> N -> pystr;
  (** [lutris_config_dir / f"{config_slug}.yml"] *)
  yaml_path : pystr -> pystr;
  (** [int(time.time())] at the i-th entry of the manifest *)
  clock : nat -> Z;
  (** what writing the YAML file of the i-th entry does *)
  yaml_write : nat -> write_outcome;
  (** what sqlite does with the INSERT of the i-th entry *)
  db_insert : nat -> insert_outcome;
  heroic_config_file : json -> option_file;
  heroic_library : library_file;
  lutris_db_exists : bool;
  lutris_config_dir : config_dir
}.

(** Lines printed on the console. *)
Inductive event :=
| PrintSkipNoExecutable (game_title : pystr)
| PrintSkipExists (game_title game_slug : pystr)
| PrintConfigWarning (app_name : json)
| PrintYamlError (game_title : pystr)
| PrintAdded (game_title : pystr) (executable_path wine_prefix : json) (path : pystr)
| PrintDbError (game_title : pystr)
| PrintSummary (added skipped : nat)
| PrintTraceback (e : exn)
| PrintCreatedDir
| PrintDirError
| PrintMissing (library_missing db_missing dir_missing : bool)
| PrintLibraryError
| PrintBanner
| PrintPrompt
| PrintCancelled
| PrintDone.

(** What the loop of [add_heroic_games_to_lutris] reads and writes: the
    files of the Lutris configuration directory, the rows inserted in the
    open transaction, the two counters and the console. *)
Record state := {
  files : gmap pystr file;
  pending : list row;
  added_games : nat;
  skipped_games : nat;
  console : list event
}.

Definition skip (msgs : list event) (st : state) : state :=
  {| files := files st; pending := pending st; added_games := added_games st;
     skipped_games := S (skipped_games st); console := console st ++ msgs |}.

(** The outcome of one iteration: the loop goes on, or an exception leaves
    the loop. *)
Inductive outcome :=
| Continue (st : state)
| Raised (e : exn) (st : state).

(** What [cursor.execute] of the INSERT does: the row joins the open
    transaction, [sqlite3.Error] is raised, or another exception is. *)
Inductive executed :=
| Inserted (r : row)
| SqliteError
| Unexpected (e : exn).

(** Binding one parameter and going on: an unsupported type is reported
    as [sqlite3.Error], an int that is too large as [OverflowError], a str
    that cannot be encoded as [UnicodeEncodeError]. *)
Definition bind_then (b : bound) (k : sqlval -> executed) : executed :=
  match b with
  | Bound v => k v
  | Unsupported => SqliteError
  | TooLarge => Unexpected OverflowError
  | NotEncodable => Unexpected UnicodeEncodeError
  end.

(** The state an iteration or the loop ends in. *)
Definition state_of (o : outcome) : state :=
  match o with
  | Continue st => st
  | Raised _ st => st
  end.

(** Lines 101-127 of an iteration: they only read the entry. *)
Inductive prepared :=
| NotInstalled
| NoTitle
| NoExecutable (game_title : pystr)
| Ready (game_title game_slug : pystr) (executable_path install_dir app_name : json).

Section Run.

Variable E : env.

(** [create_slug] applied to the object found under [title]. *)
Definition slug_of (game_title : json) : result pystr :=
  match game_title with
  | JStr t => Ok (create_slug (lower_nonascii E) t)
  | _ => Raise AttributeError
  end.

Definition title_of (game_title : json) : pystr :=
  match game_title with JStr t => t | _ => [] end.

Definition prepare (game : json) : result prepared :=
  is_installed ← py_get game (py "is_installed") (JBool false);
  if negb (truthy is_installed) then Ok NotInstalled else
  game_title ← py_get game (py "title") JNull;
  if negb (truthy game_title) then Ok NoTitle else
  game_slug ← slug_of game_title;
  install_info ← py_get game (py "install") (JObj []);
  executable_path ← py_get install_info (py "executable") JNull;
  install_dir ← py_get install_info (py "path") JNull;
  if negb (truthy executable_path) then Ok (NoExecutable (title_of game_title)) else
  install_dir ← (if negb (truthy install_dir)
                 then os_path_dirname executable_path
                 else Ok install_dir);
  app_name ← py_get game (py "app_name") JNull;
  Ok (Ready (title_of game_title) game_slug executable_path install_dir app_name).

(** The body of the [try] of [get_heroic_game_config] once the file is
    parsed; every exception it raises is caught by the function. *)
Definition read_game_config (app_name config_data : json)
  : result (list (pystr * json)) :=
  game_config ←
    match config_data, app_name with
    | JObj d, JStr k => Ok (default (JObj []) (dict_lookup k d))
    | JObj d, (JArr _ | JObj _) => Raise TypeError
    | JObj d, _ => Ok (JObj [])
    | _, _ => Raise AttributeError
    end;
  wine_prefix ← py_get game_config (py "winePrefix") JNull;
  wine_version ← py_get game_config (py "wineVersion") (JObj []);
  wine_bin ← py_get wine_version (py "bin") JNull;
  dxvk ← py_get game_config (py "autoInstallDxvk") (JBool false);
  esync ← py_get game_config (py "enableEsync") (JBool false);
  fsync ← py_get game_config (py "enableFsync") (JBool false);
  Ok [(py "wine_prefix", wine_prefix); (py "wine_version", wine_bin);
      (py "dxvk", dxvk); (py "esync", esync); (py "fsync", fsync)].

(** [get_heroic_game_config]: the dict it returns and what it prints. *)
Definition get_heroic_game_config (app_name : json)
  : list (pystr * json) * list event :=
  match heroic_config_file E app_name with
  | Absent => ([], [])
  | Unreadable => ([], [PrintConfigWarning app_name])
  | Parsed config_data =>
      match read_game_config app_name config_data with
      | Ok d => (d, [])
      | Raise _ => ([], [PrintConfigWarning app_name])
      end
  end.

Definition lutris_game_config (executable_path : json)
    (heroic_config : list (pystr * json)) : json :=
  JObj [(py "game",
         JObj [(py "exe", executable_path);
               (py "prefix", default JNull (dict_lookup (py "wine_prefix") heroic_config))]);
        (py "wine",
         JObj [(py "dxvk", default (JBool false) (dict_lookup (py "dxvk") heroic_config));
               (py "esync", default (JBool false) (dict_lookup (py "esync") heroic_config));
               (py "fsync", default (JBool false) (dict_lookup (py "fsync") heroic_config))])].

(** [f"{game_slug}-{int(time.time())}"] *)
Definition config_slug_of (i : nat) (game_slug : pystr) : pystr :=
  game_slug ++ [cp_hyphen] ++ str_of_int (clock E i).

Definition new_row (game_title game_slug config_slug : pystr)
    (executable_path install_dir : sqlval) : row :=
  {| name := SqlText game_title; slug := SqlText game_slug;
     runner := SqlText (py "wine"); executable := executable_path;
     directory := install_dir; installed := SqlInt 1;
     configpath := SqlText config_slug |}.

(** [if yaml_path.exists(): yaml_path.unlink()] *)
Definition unlink_if_exists (path : pystr) (fs : gmap pystr file) : gmap pystr file :=
  match fs !! path with
  | Some _ => delete path fs
  | None => fs
  end.

(** The handler of [sqlite3.Error] at lines 167-171. *)
Definition insert_failed (game_title path : pystr) (st : state) : state :=
  {| files := unlink_if_exists path (files st); pending := pending st;
     added_games := added_games st; skipped_games := S (skipped_games st);
     console := console st ++ [PrintDbError game_title] |}.

(** [cursor.execute] of the INSERT at lines 158-161: the seven parameters
    are bound in order and the first that does not bind decides the
    exception; the runner and the installed flag always bind. *)
Definition execute_insert (i : nat) (game_title game_slug config_slug : pystr)
    (executable_path install_dir : json) : executed :=
  match db_insert E i with
  | ErrorBeforeBind => SqliteError
  | at_step =>
      bind_then (sql_bind (JStr game_title)) (fun _ =>
      bind_then (sql_bind (JStr game_slug)) (fun _ =>
      bind_then (sql_bind executable_path) (fun exe =>
      bind_then (sql_bind install_dir) (fun dir =>
      bind_then (sql_bind (JStr config_slug)) (fun _ =>
        match at_step with
        | InsertOk =>
            Inserted (new_row game_title game_slug config_slug exe dir)
        | _ => SqliteError
        end)))))
  end.

(** Lines 157-171: the INSERT of the row, after the YAML file is written. *)
Definition insert_game (i : nat) (game_title game_slug config_slug path : pystr)
    (executable_path install_dir wine_prefix : json) (st : state) : outcome :=
  match execute_insert i game_title game_slug config_slug executable_path install_dir with
  | Inserted r =>
      Continue
        {| files := files st;
           pending := pending st ++ [r];
           added_games := S (added_games st);
           skipped_games := skipped_games st;
           console := console st ++
             [PrintAdded game_title executable_path wine_prefix path] |}
  | SqliteError => Continue (insert_failed game_title path st)
  | Unexpected e => Raised e st
  end.

(** One iteration of the loop, for the i-th entry of the manifest. *)
Definition process_game (existing_slugs : list sqlval) (i : nat) (game : json)
    (st : state) : outcome :=
  match prepare game with
  | Raise e => Raised e st
  | Ok NotInstalled => Continue st
  | Ok NoTitle => Continue (skip [] st)
  | Ok (NoExecutable game_title) => Continue (skip [PrintSkipNoExecutable game_title] st)
  | Ok (Ready game_title game_slug executable_path install_dir app_name) =>
      if bool_decide (SqlText game_slug ∈ existing_slugs)
      then Continue (skip [PrintSkipExists game_title game_slug] st)
      else
        let '(heroic_config, warnings) := get_heroic_game_config app_name in
        let wine_prefix := default JNull (dict_lookup (py "wine_prefix") heroic_config) in
        let config_slug := config_slug_of i game_slug in
        let path := yaml_path E config_slug in
        let st1 :=
          {| files := files st; pending := pending st; added_games := added_games st;
             skipped_games := skipped_games st; console := console st ++ warnings |} in
        match yaml_write E i with
        | OpenFailed => Continue (skip [PrintYamlError game_title] st1)
        | DumpFailed =>
            Continue (skip [PrintYamlError game_title]
              {| files := <[path := Partial]> (files st1); pending := pending st1;
                 added_games := added_games st1; skipped_games := skipped_games st1;
                 console := console st1 |})
        | Written =>
            insert_game i game_title game_slug config_slug path
              executable_path install_dir wine_prefix
              {| files := <[path := YamlDoc (lutris_game_config executable_path heroic_config)]>
                            (files st1);
                 pending := pending st1; added_games := added_games st1;
                 skipped_games := skipped_games st1; console := console st1 |}
        end
  end.

(** The [for] loop, from the i-th entry on. *)
Fixpoint run_loop (existing_slugs : list sqlval) (i : nat) (games : list json)
    (st : state) : outcome :=
  match games with
  | [] => Continue st
  | game :: rest =>
      match process_game existing_slugs i game st with
      | Continue st' => run_loop existing_slugs (S i) rest st'
      | Raised e st' => Raised e st'
      end
  end.

(** What a run leaves behind: the committed rows of [games], the files of
    the configuration directory, whether that directory was created, how
    many connections were opened, and the console. *)
Record world := {
  db : list row;
  config_files : gmap pystr file;
  dir_created : bool;
  connections : nat;
  printed : list event
}.

Definition print (msgs : list event) (w : world) : world :=
  {| db := db w; config_files := config_files w; dir_created := dir_created w;
     connections := connections w; printed := printed w ++ msgs |}.

(** [find_lutris_config_dir] *)
Definition find_lutris_config_dir (w : world) : world :=
  match lutris_config_dir E with
  | DirFound => w
  | DirUnavailable => print [PrintDirError] w
  | DirCreated =>
      {| db := db w; config_files := config_files w; dir_created := true;
         connections := connections w; printed := printed w ++ [PrintCreatedDir] |}
  end.

Definition library_exists : bool :=
  match heroic_library E with LibMissing => false | _ => true end.

Definition config_dir_available : bool :=
  match lutris_config_dir E with DirUnavailable => false | _ => true end.

Definition initial_state (w : world) : state :=
  {| files := config_files w; pending := []; added_games := 0;
     skipped_games := 0; console := printed w |}.

(** Lines 96-171: the slugs of the catalog are read once, then the loop
    runs over [heroic_data.get('games', [])]. *)
Definition run_games (heroic_data : json) (w : world) : outcome :=
  let existing_slugs := map slug (db w) in
  match (games ← py_get heroic_data (py "games") (JArr []); py_iter games) with
  | Raise e => Raised e (initial_state w)
  | Ok games => run_loop existing_slugs 0 games (initial_state w)
  end.

(** Lines 92-186: the connection is opened, the loop runs inside the
    [try], the transaction is committed after the loop; an exception
    skips the commit, and closing the connection drops the rows that
    were not committed. *)
Definition import_games (heroic_data : json) (w : world) : world :=
  match run_games heroic_data w with
  | Continue st =>
      {| db := db w ++ pending st; config_files := files st;
         dir_created := dir_created w; connections := S (connections w);
         printed := console st ++ [PrintSummary (added_games st) (skipped_games st)] |}
  | Raised e st =>
      {| db := db w; config_files := files st;
         dir_created := dir_created w; connections := S (connections w);
         printed := console st ++ [PrintTraceback e] |}
  end.

Definition add_heroic_games_to_lutris (w : world) : world :=
  let w := find_lutris_config_dir w in
  if negb (library_exists && lutris_db_exists E && config_dir_available)
  then print [PrintMissing (negb library_exists) (negb (lutris_db_exists E))
                           (negb config_dir_available)] w
  else
    match heroic_library E with
    | LibParsed heroic_data => import_games heroic_data w
    | _ => print [PrintLibraryError] w
    end.

(** [main], given the line typed at the prompt. *)
Definition main (response : pystr) (w : world) : world :=
  let w := print [PrintBanner; PrintPrompt] w in
  if bool_decide (lower (lower_nonascii E) response = py "y")
  then print [PrintDone] (add_heroic_games_to_lutris w)
  else print [PrintCancelled] w.

End Run.

(** ** Sample runs *)

(** A lowercase table under which no code point outside ASCII is cased. *)
Definition uncased : pystr -> nat -> N -> pystr := fun _ _ c => [c].

(** A manifest entry of an installed game without an install path. *)
Definition entry (app_name title exe : string) : json :=
  JObj [(py "app_name", JStr (py app_name));
        (py "title", JStr (py title));
        (py "is_installed", JBool true);
        (py "install", JObj [(py "executable", JStr (py exe))])].

(** An environment where every write and every INSERT succeeds and no
    option file exists. *)
Definition sample_env (manifest : json) : env :=
  {| lower_nonascii := uncased;
     yaml_path := fun config_slug =>
       py "/home/u/.local/share/lutris/games/" ++ config_slug ++ py ".yml";
     clock := fun _ => 1700000000%Z;
     yaml_write := fun _ => Written;
     db_insert := fun _ => InsertOk;
     heroic_config_file := fun _ => Absent;
     heroic_library := LibParsed manifest;
     lutris_db_exists := true;
     lutris_config_dir := DirFound |}.

Definition empty_state : state :=
  {| files := ∅; pending := []; added_games := 0; skipped_games := 0; console := [] |}.

Definition empty_world : world :=
  {| db := []; config_files := ∅; dir_created := false; connections := 0; printed := [] |}.

Definition foo_entry : json := entry "foo" "Foo" "/games/Foo/foo.exe".

(** The row [foo_entry] gets in the sample environment. *)
Definition foo_row : row :=
  {| name := SqlText (py "Foo"); slug := SqlText (py "foo");
     runner := SqlText (py "wine");
     executable := SqlText (py "/games/Foo/foo.exe");
     directory := SqlText (py "/games/Foo"); installed := SqlInt 1;
     configpath := SqlText (py "foo-1700000000") |}.

(** Two entries whose titles differ and whose slugs agree. *)
Definition foo_bar_entry : json := entry "foobar1" "Foo: Bar" "/games/FooBar/a.exe".
Definition foo_bar_entry' : json := entry "foobar2" "Foo Bar." "/games/FooBar2/b.exe".

(** An entry whose [install] member is [null]: [install_info.get] raises. *)
Definition broken_entry : json :=
  JObj [(py "app_name", JStr (py "bar"));
        (py "title", JStr (py "Bar"));
        (py "is_installed", JBool true);
        (py "install", JNull)].

Definition manifest_of (games : list json) : json := JObj [(py "games", JArr games)].

(** An entry whose executable is the integer 2^63, with an install path. *)
Definition big_entry : json :=
  JObj [(py "app_name", JStr (py "big"));
        (py "title", JStr (py "Big"));
        (py "is_installed", JBool true);
        (py "install", JObj [(py "executable", JInt (2 ^ 63));
                             (py "path", JStr (py "/games/Big"))])].

(** The same environment with sqlite failing on every INSERT. *)
Definition failing_db_env (manifest : json) : env :=
  {| lower_nonascii := uncased;
     yaml_path := yaml_path (sample_env manifest);
     clock := clock (sample_env manifest);
     yaml_write := fun _ => Written;
     db_insert := fun _ => ErrorAtStep;
     heroic_config_file := fun _ => Absent;
     heroic_library := LibParsed manifest;
     lutris_db_exists := true;
     lutris_config_dir := DirFound |}.

(** The same environment with an option file that cannot be parsed. *)
Definition bad_options_env (manifest : json) : env :=
  {| lower_nonascii := uncased;
     yaml_path := yaml_path (sample_env manifest);
     clock := clock (sample_env manifest);
     yaml_write := fun _ => Written;
     db_insert := fun _ => InsertOk;
     heroic_config_file := fun _ => Unreadable;
     heroic_library := LibParsed manifest;
     lutris_db_exists := true;
     lutris_config_dir := DirFound |}.

(** ** Notions used by the properties *)

(** A string of ASCII code points only. *)
Definition is_ascii (s : pystr) : Prop := Forall (fun c => c < 128) s.

(** The entries of a manifest that count as installed: the loop passes
    over the others without counting them. *)
Definition counted (E : env) (game : json) : bool :=
  match prepare E game with
  | Ok NotInstalled => false
  | _ => true
  end.

(** The row [r] is the one the iteration for the i-th entry [game]
    inserts: the entry is complete, its slug is new, the YAML file was
    written and the INSERT went through. *)
Definition inserted_by (E : env) (existing_slugs : list sqlval) (i : nat)
    (game : json) (r : row) : Prop :=
  exists t s exe dir app,
    prepare E game = Ok (Ready t s exe dir app) /\
    (SqlText s ∉ existing_slugs) /\
    yaml_write E i = Written /\
    execute_insert E i t s (config_slug_of E i s) exe dir = Inserted r.

(** ** [find_lutris_config_dir], path by path *)

Section ConfigDir.

(** [Path.home() / rel] *)
Variable home_path : pystr -> pystr.
(** [path.exists() and path.is_dir()] *)
Variable is_dir : pystr -> bool.
(** [path.mkdir(parents=True, exist_ok=True)] returns without [OSError] *)
Variable mkdir_ok : pystr -> bool.

Definition possible_paths : list pystr :=
  [home_path (py ".local/share/lutris/games");
   home_path (py ".config/lutris/games");
   home_path (py ".var/app/net.lutris.Lutris/config/lutris/games")].

(** The [for] loop of lines 37-39. *)
Fixpoint first_dir (paths : list pystr) : option pystr :=
  match paths with
  | [] => None
  | path :: rest => if is_dir path then Some path else first_dir rest
  end.

(** The directory the function returns, and how it came by it. *)
Definition locate_config_dir : option pystr * config_dir :=
  match first_dir possible_paths with
  | Some path => (Some path, DirFound)
  | None =>
      let path_to_create := home_path (py ".local/share/lutris/games") in
      if mkdir_ok path_to_create
      then (Some path_to_create, DirCreated)
      else (None, DirUnavailable)
  end.

End ConfigDir.

(** * Properties *)

(** ** [str.replace] and [create_slug] *)

Lemma replace_from_single (a : N) (new s : pystr) :
  replace_from [a] new 0 s = flat_map (fun c => if c =? a then new else [c]) s.
Proof.
  induction s as [|c s IH]; [reflexivity|].
  cbn [replace_from starts_with flat_map length Nat.sub].
  rewrite (N.eqb_sym a c).
  destruct (c =? a); cbn; rewrite IH; [|reflexivity].
  destruct s; reflexivity.
Qed.

Lemma replace_single (a : N) (new s : pystr) :
  replace [a] new s = flat_map (fun c => if c =? a then new else [c]) s.
Proof. apply replace_from_single. Qed.

Lemma slug_pipeline_char (c : N) :
  flat_map (fun c => if c =? cp_ampersand then py "and" else [c])
   (flat_map (fun c => if c =? cp_full_stop then [] else [c])
    (flat_map (fun c => if c =? cp_trade_mark then [] else [c])
     (flat_map (fun c => if c =? cp_registered then [] else [c])
      (flat_map (fun c => if c =? cp_apostrophe then [] else [c])
       (flat_map (fun c => if c =? cp_colon then [] else [c])
        (if c =? cp_space then [cp_hyphen] else [c]))))))
  = slug_char c.
Proof.
  unfold slug_char, is_stripped, stripped.
  cbn [existsb].
  destruct (N.eqb_spec c cp_space) as [->|Hsp]; [reflexivity|].
  destruct (N.eqb_spec c cp_colon) as [->|H1]; [reflexivity|].
  cbn [flat_map app orb].
  apply N.eqb_neq in H1; rewrite H1; cbn [flat_map app].
  destruct (N.eqb_spec c cp_apostrophe) as [->|H2]; [reflexivity|].
  cbn [flat_map app orb].
  destruct (N.eqb_spec c cp_registered) as [->|H3]; [reflexivity|].
  cbn [flat_map app orb].
  destruct (N.eqb_spec c cp_trade_mark) as [->|H4]; [reflexivity|].
  cbn [flat_map app orb].
  destruct (N.eqb_spec c cp_full_stop) as [->|H5]; [reflexivity|].
  cbn [flat_map app orb].
  destruct (N.eqb_spec c cp_ampersand) as [->|H6]; [reflexivity|].
  rewrite app_nil_r. reflexivity.
Qed.

Lemma create_slug_flat_map (L : pystr -> nat -> N -> pystr) (title : pystr) :
  create_slug L title = slug_spec (lower L title).
Proof.
  unfold create_slug, slug_spec.
  rewrite !replace_single.
  induction (lower L title) as [|c s IH]; [reflexivity|].
  change (c :: s) with ([c] ++ s).
  rewrite !flat_map_app, IH. f_equal.
  cbn [flat_map]. rewrite !app_nil_r.
  apply slug_pipeline_char.
Qed.

Lemma slug_spec_app (s1 s2 : pystr) :
  slug_spec (s1 ++ s2) = slug_spec s1 ++ slug_spec s2.
Proof. apply flat_map_app. Qed.

Lemma is_stripped_spec (c : N) : is_stripped c = true <-> c ∈ stripped.
Proof.
  unfold is_stripped. rewrite existsb_exists. split.
  - intros (x & Hx & Heq). apply N.eqb_eq in Heq. subst x.
    by apply list_elem_of_In.
  - intros Hc. exists c. split; [by apply list_elem_of_In | apply N.eqb_refl].
Qed.

Lemma slug_char_not_stripped (x c : N) :
  c ∈ slug_char x -> is_stripped c = false.
Proof.
  unfold slug_char.
  destruct (N.eqb_spec x cp_space) as [->|Hsp].
  { intros ->%list_elem_of_singleton. reflexivity. }
  destruct (is_stripped x) eqn:Hx.
  { intros []%elem_of_nil. }
  destruct (N.eqb_spec x cp_ampersand) as [->|Ham].
  { intros Hc. cbv in Hc.
    repeat (apply elem_of_cons in Hc as [->|Hc]; [reflexivity|]).
    by apply elem_of_nil in Hc. }
  intros ->%list_elem_of_singleton. exact Hx.
Qed.

Lemma lower_quest (L : pystr -> nat -> N -> pystr) :
  (forall s i, L s i cp_trade_mark = [cp_trade_mark]) ->
  lower L (py "Foo: Bar's Quest" ++ [cp_trade_mark])
  = py "foo: bar's quest" ++ [cp_trade_mark].
Proof.
  intros HL. unfold cp_trade_mark in *. unfold lower.
  set (s := py "Foo: Bar's Quest" ++ [8482]).
  pose proof (HL s 16%nat) as H16.
  assert (Hs : s = py "Foo: Bar's Quest" ++ [8482]) by reflexivity.
  rewrite Hs at 2. clearbody s.
  vm_compute. rewrite H16. reflexivity.
Qed.

(** C1. [create_slug] is the stated derivation: the chain of [replace]
    calls, applied to the lowercased title, turns every space into a hyphen,
    deletes the stripped characters, turns every ampersand into the word
    and, and keeps the rest; when the trade mark sign is uncased, the title
    Foo: Bar's Quest(TM) gives the slug foo-bars-quest. *)
Theorem create_slug_follows_spec (L : pystr -> nat -> N -> pystr) :
  (forall s i, L s i cp_trade_mark = [cp_trade_mark]) ->
  (forall title, create_slug L title = slug_spec (lower L title)) /\
  create_slug L (py "Foo: Bar's Quest" ++ [cp_trade_mark]) = py "foo-bars-quest".
Proof.
  intros HL. split; [apply create_slug_flat_map|].
  rewrite create_slug_flat_map, lower_quest by exact HL.
  vm_compute. reflexivity.
Qed.

Lemma create_slug_follows_spec_witness :
  (forall title, create_slug uncased title = slug_spec (lower uncased title)) /\
  create_slug uncased (py "Foo: Bar's Quest" ++ [cp_trade_mark]) = py "foo-bars-quest".
Proof. apply (create_slug_follows_spec uncased). intros s i. reflexivity. Defined.

Lemma slug_char_stripped (c : N) : c ∈ stripped -> slug_char c = [].
Proof.
  intros Hc. unfold slug_char.
  destruct (N.eqb_spec c cp_space) as [->|_].
  { apply is_stripped_spec in Hc. discriminate. }
  apply is_stripped_spec in Hc. rewrite Hc. reflexivity.
Qed.

Lemma slug_char_kept (c : N) :
  c ∉ stripped -> c <> cp_space -> c <> cp_ampersand -> slug_char c = [c].
Proof.
  intros Hc Hsp Ham. unfold slug_char.
  apply N.eqb_neq in Hsp, Ham. rewrite Hsp, Ham.
  destruct (is_stripped c) eqn:Hs; [|reflexivity].
  apply is_stripped_spec in Hs. contradiction.
Qed.

(** C10. The characters [create_slug] deletes are exactly the colon, the
    apostrophe, the registered sign, the trade mark sign and the full stop:
    none of them occurs in a slug, each occurrence in the lowercased title
    is dropped, and every character of the lowercased title other than
    these, the space and the ampersand stays where it is; so a slug may
    hold a slash, an exclamation mark or a question mark. *)
Theorem create_slug_strips_exactly (L : pystr -> nat -> N -> pystr) (title : pystr) :
  (forall c, c ∈ stripped -> c ∉ create_slug L title) /\
  (forall pre c post, lower L title = pre ++ c :: post -> c ∈ stripped ->
     create_slug L title = slug_spec pre ++ slug_spec post) /\
  (forall pre c post, lower L title = pre ++ c :: post ->
     c ∉ stripped -> c <> cp_space -> c <> cp_ampersand ->
     create_slug L title = slug_spec pre ++ c :: slug_spec post) /\
  create_slug L (py "Who? Me/You!") = py "who?-me/you!".
Proof.
  rewrite create_slug_flat_map. split; [|split; [|split]].
  - intros c Hc Hin. unfold slug_spec in Hin.
    rewrite list_elem_of_In, in_flat_map in Hin. destruct Hin as (x & _ & Hx).
    rewrite <- list_elem_of_In in Hx. apply slug_char_not_stripped in Hx.
    apply is_stripped_spec in Hc. congruence.
  - intros pre c post -> Hc.
    change (c :: post) with ([c] ++ post).
    rewrite !slug_spec_app. unfold slug_spec at 2. cbn [flat_map].
    rewrite slug_char_stripped by exact Hc. reflexivity.
  - intros pre c post -> Hc Hsp Ham.
    change (c :: post) with ([c] ++ post).
    rewrite !slug_spec_app. unfold slug_spec at 2. cbn [flat_map].
    rewrite slug_char_kept by assumption. reflexivity.
  - vm_compute. reflexivity.
Qed.

Lemma create_slug_strips_exactly_witness :
  create_slug uncased (py "A.B") = slug_spec (py "a") ++ slug_spec (py "b") /\
  create_slug uncased (py "A/B") = slug_spec (py "a") ++ cp_slash :: slug_spec (py "b").
Proof.
  split.
  - apply (proj1 (proj2 (create_slug_strips_exactly uncased (py "A.B")))
             (py "a") cp_full_stop (py "b")).
    + reflexivity.
    + apply is_stripped_spec. reflexivity.
  - apply (proj1 (proj2 (proj2 (create_slug_strips_exactly uncased (py "A/B"))))
             (py "a") cp_slash (py "b")).
    + reflexivity.
    + intros H%is_stripped_spec. discriminate.
    + discriminate.
    + discriminate.
Defined.

(** ** The loop body *)

(** C5. An entry whose [is_installed] member is missing or false (in the
    sense of [not]) is passed over: the iteration leaves the files, the
    pending rows, the counters and the console as they were. *)
Theorem not_installed_passed_over (E : env) (existing_slugs : list sqlval)
    (i : nat) (d : list (pystr * json)) (st : state) :
  truthy (default (JBool false) (dict_lookup (py "is_installed") d)) = false ->
  process_game E existing_slugs i (JObj d) st = Continue st.
Proof.
  intros Hflag. unfold process_game, prepare.
  cbn [py_get mbind result_bind]. rewrite Hflag. reflexivity.
Qed.

Lemma not_installed_passed_over_witness :
  process_game (sample_env JNull) [] 0
    (JObj [(py "title", JStr (py "Foo")); (py "is_installed", JBool false)])
    empty_state
  = Continue empty_state.
Proof. apply not_installed_passed_over. reflexivity. Defined.

Lemma unlink_after_write (path : pystr) (f : file) (fs : gmap pystr file) :
  unlink_if_exists path (<[path := f]> fs) = delete path fs.
Proof.
  unfold unlink_if_exists. rewrite lookup_insert_eq.
  apply delete_insert_eq.
Qed.

(** C2 as amended. When the YAML file of an entry was written and the
    INSERT then raises [sqlite3.Error], the iteration ends normally with the file at
    the YAML path gone, every other file and the pending rows as before,
    the skipped counter one higher and the added counter unchanged, and the
    loop goes on with the next entry. *)
Theorem insert_error_removes_config (E : env) (existing_slugs : list sqlval)
    (i : nat) (game : json) (rest : list json) (st : state)
    (game_title game_slug : pystr) (executable_path install_dir app_name : json) :
  prepare E game = Ok (Ready game_title game_slug executable_path install_dir app_name) ->
  SqlText game_slug ∉ existing_slugs ->
  yaml_write E i = Written ->
  execute_insert E i game_title game_slug (config_slug_of E i game_slug)
    executable_path install_dir = SqliteError ->
  let path := yaml_path E (config_slug_of E i game_slug) in
  exists st',
    process_game E existing_slugs i game st = Continue st' /\
    files st' !! path = None /\
    (forall p, p <> path -> files st' !! p = files st !! p) /\
    pending st' = pending st /\
    added_games st' = added_games st /\
    skipped_games st' = S (skipped_games st) /\
    run_loop E existing_slugs i (game :: rest) st
    = run_loop E existing_slugs (S i) rest st'.
Proof.
  intros Hprep Hnew Hwrite Hexec path.
  assert (Hstep : exists st',
    process_game E existing_slugs i game st = Continue st' /\
    files st' = delete path (files st) /\
    pending st' = pending st /\ added_games st' = added_games st /\
    skipped_games st' = S (skipped_games st)).
  { unfold process_game. rewrite Hprep.
    rewrite bool_decide_eq_false_2 by exact Hnew.
    destruct (get_heroic_game_config E app_name) as [heroic_config warnings].
    rewrite Hwrite. unfold insert_game. rewrite Hexec.
    eexists. split; [reflexivity|].
    cbn [files pending added_games skipped_games insert_failed].
    rewrite unlink_after_write. auto. }
  destruct Hstep as (st' & Hst' & Hfiles & Hpend & Hadd & Hskip).
  exists st'. repeat split; try assumption.
  - rewrite Hfiles. apply lookup_delete_eq.
  - intros p Hp. rewrite Hfiles. apply lookup_delete_ne. congruence.
  - cbn [run_loop]. rewrite Hst'. reflexivity.
Qed.

Lemma insert_error_removes_config_witness :
  exists st',
    process_game (failing_db_env JNull) [] 0 foo_entry empty_state = Continue st' /\
    files st' !! py "/home/u/.local/share/lutris/games/foo-1700000000.yml" = None /\
    (forall p, p <> py "/home/u/.local/share/lutris/games/foo-1700000000.yml" ->
       files st' !! p = files empty_state !! p) /\
    pending st' = pending empty_state /\
    added_games st' = added_games empty_state /\
    skipped_games st' = S (skipped_games empty_state) /\
    run_loop (failing_db_env JNull) [] 0 [foo_entry; foo_entry] empty_state
    = run_loop (failing_db_env JNull) [] 1 [foo_entry] st'.
Proof.
  apply (insert_error_removes_config (failing_db_env JNull) [] 0%nat foo_entry
           [foo_entry] empty_state (py "Foo") (py "foo")
           (JStr (py "/games/Foo/foo.exe")) (JStr (py "/games/Foo"))
           (JStr (py "foo"))).
  - reflexivity.
  - apply not_elem_of_nil.
  - reflexivity.
  - reflexivity.
Defined.

(** C2 as stated fails for an error that is not [sqlite3.Error]: with the
    integer 2^63 as executable, binding the parameter raises
    [OverflowError] after the YAML file was written; the handler of line
    167 does not catch it, so the file stays, the entry is not counted as
    skipped, and the loop stops before the next entry. *)
Lemma insert_overflow_keeps_config :
  exists st',
    execute_insert (sample_env JNull) 0 (py "Big") (py "big")
      (config_slug_of (sample_env JNull) 0 (py "big"))
      (JInt (2 ^ 63)) (JStr (py "/games/Big")) = Unexpected OverflowError /\
    process_game (sample_env JNull) [] 0 big_entry empty_state
    = Raised OverflowError st' /\
    is_Some (files st' !! py "/home/u/.local/share/lutris/games/big-1700000000.yml") /\
    skipped_games st' = skipped_games empty_state /\
    run_loop (sample_env JNull) [] 0 [big_entry; foo_entry] empty_state
    = Raised OverflowError st'.
Proof.
  exists (state_of (process_game (sample_env JNull) [] 0 big_entry empty_state)).
  split; [reflexivity|]. split; [vm_compute; reflexivity|].
  split; [vm_compute; by eexists|].
  split; [reflexivity | vm_compute; reflexivity].
Qed.

Lemma prepare_ready (E : env) (d inst : list (pystr * json)) (t exe : pystr) :
  truthy (default (JBool false) (dict_lookup (py "is_installed") d)) = true ->
  dict_lookup (py "title") d = Some (JStr t) -> t <> [] ->
  dict_lookup (py "install") d = Some (JObj inst) ->
  dict_lookup (py "executable") inst = Some (JStr exe) -> exe <> [] ->
  truthy (default JNull (dict_lookup (py "path") inst)) = false ->
  prepare E (JObj d)
  = Ok (Ready t (create_slug (lower_nonascii E) t) (JStr exe) (JStr (dirname exe))
          (default JNull (dict_lookup (py "app_name") d))).
Proof.
  intros Hflag Htitle Ht Hinst Hexe He Hpath.
  unfold prepare. cbn [py_get mbind result_bind].
  rewrite Hflag, Htitle, Hinst. cbn [default from_option id negb truthy].
  destruct t as [|c t]; [contradiction|].
  cbn [slug_of mbind result_bind py_get title_of].
  rewrite Hexe. cbn [default from_option id truthy].
  destruct exe as [|x exe]; [contradiction|].
  cbn [negb]. rewrite Hpath. reflexivity.
Qed.

Lemma execute_insert_inserted (E : env) (i : nat) (t s cfg : pystr)
    (exe dir : json) (r : row) :
  execute_insert E i t s cfg exe dir = Inserted r ->
  exists e d, sql_bind exe = Bound e /\ sql_bind dir = Bound d /\
              r = new_row t s cfg e d.
Proof.
  unfold execute_insert, bind_then. intros H.
  destruct (sql_bind exe) as [e| | |], (sql_bind dir) as [d| | |];
    destruct (db_insert E i), (sql_bind (JStr t)), (sql_bind (JStr s)),
      (sql_bind (JStr cfg)); try discriminate.
  injection H as <-. eauto.
Qed.

Lemma last_rfind_succ (parent file_name : pystr) :
  cp_slash ∉ file_name ->
  rfind_succ cp_slash (parent ++ cp_slash :: file_name) = S (length parent).
Proof.
  intros Hf.
  assert (Hzero : rfind_succ cp_slash file_name = 0%nat).
  { induction file_name as [|x f IH]; [reflexivity|].
    cbn [rfind_succ]. rewrite IH.
    - destruct (N.eqb_spec x cp_slash) as [->|_]; [|reflexivity].
      exfalso. apply Hf. left.
    - intros Hin. apply Hf. by right. }
  induction parent as [|x p IH].
  - cbn [app rfind_succ length]. rewrite Hzero, N.eqb_refl. reflexivity.
  - cbn [app rfind_succ length]. rewrite IH. reflexivity.
Qed.

Lemma rstrip_snoc_slash (parent : pystr) (x : N) :
  last parent = Some x -> x <> cp_slash ->
  rstrip cp_slash (parent ++ [cp_slash]) = parent.
Proof.
  intros Hlast Hx. induction parent as [|y p IH]; [discriminate|].
  destruct p as [|z p].
  - cbn in Hlast. injection Hlast as ->.
    cbn. apply N.eqb_neq in Hx. rewrite Hx. reflexivity.
  - cbn [app rstrip] in *. rewrite IH by exact Hlast. reflexivity.
Qed.

Lemma dirname_parent (parent file_name : pystr) (x : N) :
  last parent = Some x -> x <> cp_slash -> cp_slash ∉ file_name ->
  dirname (parent ++ cp_slash :: file_name) = parent.
Proof.
  intros Hlast Hx Hf. unfold dirname.
  rewrite last_rfind_succ by exact Hf.
  replace (take (S (length parent)) (parent ++ cp_slash :: file_name))
    with (parent ++ [cp_slash]).
  2:{ change (cp_slash :: file_name) with ([cp_slash] ++ file_name).
      rewrite app_assoc, take_app_length'; [reflexivity|].
      rewrite length_app. cbn. lia. }
  assert (Hall : forallb (N.eqb cp_slash) (parent ++ [cp_slash]) = false).
  { apply not_true_is_false. intros Hall.
    rewrite forallb_forall in Hall.
    assert (Hin : In x (parent ++ [cp_slash])).
    { apply in_or_app. left. apply list_elem_of_In.
      apply last_Some in Hlast as [l' ->]. set_solver. }
    apply Hall, N.eqb_eq in Hin. congruence. }
  rewrite Hall, (rstrip_snoc_slash parent x) by assumption.
  destruct parent; [discriminate|reflexivity].
Qed.

Lemma get_heroic_game_config_malformed (E : env) (app_name : json) :
  heroic_config_file E app_name = Unreadable \/
  (exists config_data e, heroic_config_file E app_name = Parsed config_data /\
                         read_game_config app_name config_data = Raise e) ->
  get_heroic_game_config E app_name = ([], [PrintConfigWarning app_name]).
Proof.
  unfold get_heroic_game_config.
  intros [-> | (config_data & e & -> & ->)]; reflexivity.
Qed.

(** C8. When the option file of a game exists and reading or parsing it
    raises (or its content has not the expected shape), a warning is
    printed and the function returns the empty dict; the config written
    for the game then has a null prefix and false for the three flags, and
    the row is inserted as for a game without options. *)
Theorem malformed_options_treated_as_empty (E : env) (existing_slugs : list sqlval)
    (i : nat) (game : json) (st : state) (game_title game_slug : pystr)
    (executable_path install_dir app_name : json) (r : row) :
  prepare E game = Ok (Ready game_title game_slug executable_path install_dir app_name) ->
  SqlText game_slug ∉ existing_slugs ->
  heroic_config_file E app_name = Unreadable \/
  (exists config_data e, heroic_config_file E app_name = Parsed config_data /\
                         read_game_config app_name config_data = Raise e) ->
  yaml_write E i = Written ->
  execute_insert E i game_title game_slug (config_slug_of E i game_slug)
    executable_path install_dir = Inserted r ->
  let path := yaml_path E (config_slug_of E i game_slug) in
  get_heroic_game_config E app_name = ([], [PrintConfigWarning app_name]) /\
  process_game E existing_slugs i game st
  = Continue
      {| files :=
           <[path := YamlDoc
               (JObj [(py "game",
                       JObj [(py "exe", executable_path); (py "prefix", JNull)]);
                      (py "wine",
                       JObj [(py "dxvk", JBool false); (py "esync", JBool false);
                             (py "fsync", JBool false)])])]> (files st);
         pending := pending st ++ [r];
         added_games := S (added_games st);
         skipped_games := skipped_games st;
         console := (console st ++ [PrintConfigWarning app_name]) ++
                    [PrintAdded game_title executable_path JNull path] |}.
Proof.
  intros Hprep Hnew Hbad Hwrite Hexec path.
  pose proof (get_heroic_game_config_malformed E app_name Hbad) as Hcfg.
  split; [exact Hcfg|].
  unfold process_game. rewrite Hprep.
  rewrite bool_decide_eq_false_2 by exact Hnew.
  rewrite Hcfg, Hwrite. unfold insert_game. rewrite Hexec.
  reflexivity.
Qed.

Lemma malformed_options_treated_as_empty_witness :
  get_heroic_game_config (bad_options_env JNull) (JStr (py "foo"))
  = ([], [PrintConfigWarning (JStr (py "foo"))]) /\
  process_game (bad_options_env JNull) [] 0 foo_entry empty_state
  = Continue
      {| files :=
           <[py "/home/u/.local/share/lutris/games/foo-1700000000.yml" :=
               YamlDoc
                 (JObj [(py "game",
                         JObj [(py "exe", JStr (py "/games/Foo/foo.exe"));
                               (py "prefix", JNull)]);
                        (py "wine",
                         JObj [(py "dxvk", JBool false); (py "esync", JBool false);
                               (py "fsync", JBool false)])])]> ∅;
         pending := [] ++ [foo_row];
         added_games := 1;
         skipped_games := 0;
         console := ([] ++ [PrintConfigWarning (JStr (py "foo"))]) ++
                    [PrintAdded (py "Foo") (JStr (py "/games/Foo/foo.exe")) JNull
                       (py "/home/u/.local/share/lutris/games/foo-1700000000.yml")] |}.
Proof.
  apply (malformed_options_treated_as_empty (bad_options_env JNull) [] 0%nat
           foo_entry empty_state (py "Foo") (py "foo")
           (JStr (py "/games/Foo/foo.exe")) (JStr (py "/games/Foo"))
           (JStr (py "foo")) foo_row).
  - reflexivity.
  - apply not_elem_of_nil.
  - left. reflexivity.
  - reflexivity.
  - reflexivity.
Defined.

(** ** The loop *)

Lemma prepare_ready_inv (E : env) (game : json) (t s : pystr) (exe dir app : json) :
  prepare E game = Ok (Ready t s exe dir app) ->
  exists d, game = JObj d /\
            dict_lookup (py "title") d = Some (JStr t) /\
            s = create_slug (lower_nonascii E) t.
Proof.
  unfold prepare. destruct game as [| | | | |d]; try discriminate.
  intros H. exists d. split; [reflexivity|].
  cbn [py_get mbind result_bind] in H.
  destruct (negb (truthy (default (JBool false) (dict_lookup (py "is_installed") d))));
    [discriminate|].
  destruct (dict_lookup (py "title") d) as [title|]; [|discriminate].
  cbn [default from_option id] in H.
  destruct (negb (truthy title)); [discriminate|].
  destruct title as [| | |t'| |]; try discriminate.
  cbn [slug_of mbind result_bind title_of] in H.
  destruct (default (JObj []) (dict_lookup (py "install") d)) as [| | | | |inst];
    try discriminate.
  cbn [py_get mbind result_bind] in H.
  destruct (negb (truthy (default JNull (dict_lookup (py "executable") inst))));
    [discriminate|].
  destruct (negb (truthy (default JNull (dict_lookup (py "path") inst)))).
  - destruct (os_path_dirname _); [|discriminate].
    cbn [mbind result_bind] in H. injection H as <- <- _ _ _. auto.
  - cbn [mbind result_bind] in H. injection H as <- <- _ _ _. auto.
Qed.

(** Whatever an iteration does, the rows it adds to the transaction carry
    a slug that was not in the catalog when the loop started. *)
Lemma process_game_new_rows (E : env) (existing_slugs : list sqlval) (i : nat)
    (game : json) (st : state) :
  exists new_rows,
    pending (state_of (process_game E existing_slugs i game st))
    = pending st ++ new_rows /\
    Forall (fun r => slug r ∉ existing_slugs) new_rows.
Proof.
  unfold process_game.
  destruct (prepare E game) as [[| |t|t s exe dir app]|e];
    try (exists []; split; [symmetry; apply app_nil_r | constructor]).
  case_bool_decide as Hex;
    [exists []; split; [symmetry; apply app_nil_r | constructor]|].
  destruct (get_heroic_game_config E app) as [heroic_config warnings].
  destruct (yaml_write E i);
    try (exists []; split; [symmetry; apply app_nil_r | constructor]).
  unfold insert_game.
  destruct (execute_insert E i t s _ exe dir) as [r| |e] eqn:Hexec;
    try (exists []; split; [symmetry; apply app_nil_r | constructor]).
  apply execute_insert_inserted in Hexec as (x & y & _ & _ & ->).
  exists [new_row t s (config_slug_of E i s) x y]. split; [reflexivity|].
  constructor; [exact Hex | constructor].
Qed.

Lemma run_loop_new_rows (E : env) (existing_slugs : list sqlval)
    (games : list json) (i : nat) (st : state) :
  exists new_rows,
    pending (state_of (run_loop E existing_slugs i games st))
    = pending st ++ new_rows /\
    Forall (fun r => slug r ∉ existing_slugs) new_rows.
Proof.
  revert i st. induction games as [|game rest IH]; intros i st.
  - exists []. split; [symmetry; apply app_nil_r | constructor].
  - cbn [run_loop].
    destruct (process_game_new_rows E existing_slugs i game st) as (n1 & H1 & F1).
    destruct (process_game E existing_slugs i game st) as [st'|e st'].
    + destruct (IH (S i) st') as (n2 & H2 & F2).
      exists (n1 ++ n2). split.
      * rewrite H2. cbn [state_of] in H1. rewrite H1. by rewrite app_assoc.
      * by apply Forall_app.
    + exists n1. split; assumption.
Qed.

Lemma process_game_console (E : env) (existing_slugs : list sqlval) (i : nat)
    (game : json) (st : state) :
  exists msgs,
    console (state_of (process_game E existing_slugs i game st)) = console st ++ msgs.
Proof.
  unfold process_game.
  destruct (prepare E game) as [[| |t|t s exe dir app]|e]; cbn [state_of skip console];
    try (by eexists); try (by exists []; rewrite app_nil_r).
  case_bool_decide; [by eexists|].
  destruct (get_heroic_game_config E app) as [heroic_config warnings].
  destruct (yaml_write E i); cbn [state_of skip console];
    try (rewrite <- app_assoc; by eexists).
  unfold insert_game.
  destruct (execute_insert E i t s _ exe dir);
    cbn [state_of insert_failed console];
    try (rewrite <- app_assoc; by eexists).
  by eexists.
Qed.

Lemma run_loop_console (E : env) (existing_slugs : list sqlval)
    (games : list json) (i : nat) (st : state) :
  exists msgs,
    console (state_of (run_loop E existing_slugs i games st)) = console st ++ msgs.
Proof.
  revert i st. induction games as [|game rest IH]; intros i st.
  - exists []. cbn. by rewrite app_nil_r.
  - cbn [run_loop].
    destruct (process_game_console E existing_slugs i game st) as (m1 & H1).
    destruct (process_game E existing_slugs i game st) as [st'|e st'].
    + destruct (IH (S i) st') as (m2 & H2).
      exists (m1 ++ m2). rewrite H2. cbn [state_of] in H1. rewrite H1.
      by rewrite app_assoc.
    + by exists m1.
Qed.

Lemma run_loop_app (E : env) (existing_slugs : list sqlval)
    (l1 l2 : list json) (i : nat) (st : state) :
  run_loop E existing_slugs i (l1 ++ l2) st
  = match run_loop E existing_slugs i l1 st with
    | Continue st' => run_loop E existing_slugs (i + length l1) l2 st'
    | Raised e st' => Raised e st'
    end.
Proof.
  revert i st. induction l1 as [|game l1 IH]; intros i st.
  - cbn. by rewrite Nat.add_0_r.
  - cbn [app run_loop length].
    destruct (process_game E existing_slugs i game st) as [st'|e st']; [|reflexivity].
    rewrite IH. by rewrite Nat.add_succ_r.
Qed.

Lemma import_games_new_rows (E : env) (heroic_data : json) (w : world) :
  exists new_rows,
    db (import_games E heroic_data w) = db w ++ new_rows /\
    Forall (fun r => slug r ∉ map slug (db w)) new_rows.
Proof.
  unfold import_games, run_games.
  destruct (games ← py_get heroic_data (py "games") (JArr []); py_iter games)
    as [games|e].
  - destruct (run_loop_new_rows E (map slug (db w)) games 0 (initial_state w))
      as (new_rows & Hnew & Hall).
    destruct (run_loop E (map slug (db w)) 0 games (initial_state w)) as [st|e st].
    + exists new_rows. cbn [db state_of] in *. rewrite Hnew. auto.
    + exists []. cbn [db]. rewrite app_nil_r. auto.
  - exists []. cbn [db]. rewrite app_nil_r. auto.
Qed.

(** C4. An entry whose title derives a slug that the catalog already holds
    leaves no trace: its iteration writes no file and inserts no row, and
    when the entry reaches the test of line 129 it is counted as skipped and
    the loop goes on.  Over a whole run the rows of the catalog stay in
    place and every row that is added carries a slug the catalog did not
    hold, so a slug of the catalog gains no second row. *)
Theorem existing_slug_skipped (E : env) (heroic_data : json) (w : world) :
  let existing_slugs := map slug (db w) in
  (forall i d t st,
     dict_lookup (py "title") d = Some (JStr t) ->
     SqlText (create_slug (lower_nonascii E) t) ∈ existing_slugs ->
     let st' := state_of (process_game E existing_slugs i (JObj d) st) in
     files st' = files st /\ pending st' = pending st /\
     added_games st' = added_games st) /\
  (forall i game t s exe dir app st,
     prepare E game = Ok (Ready t s exe dir app) ->
     SqlText s ∈ existing_slugs ->
     process_game E existing_slugs i game st
     = Continue (skip [PrintSkipExists t s] st)) /\
  (exists new_rows,
     db (import_games E heroic_data w) = db w ++ new_rows /\
     Forall (fun r => slug r ∉ existing_slugs) new_rows).
Proof.
  intros existing_slugs. split; [|split].
  - intros i d t st Htitle Hin. unfold process_game.
    destruct (prepare E (JObj d)) as [[| |t'|t' s exe dir app]|e] eqn:Hp;
      cbn [state_of skip files pending added_games]; auto.
    apply prepare_ready_inv in Hp as (d' & [= <-] & Ht' & ->).
    rewrite Htitle in Ht'. injection Ht' as <-.
    rewrite bool_decide_eq_true_2 by exact Hin.
    cbn [state_of skip files pending added_games]. auto.
  - intros i game t s exe dir app st Hp Hin. unfold process_game.
    rewrite Hp, bool_decide_eq_true_2 by exact Hin. reflexivity.
  - apply import_games_new_rows.
Qed.

Lemma existing_slug_skipped_witness :
  process_game (sample_env JNull) [SqlText (py "foo")] 0 foo_entry empty_state
  = Continue (skip [PrintSkipExists (py "Foo") (py "foo")] empty_state).
Proof.
  apply (proj1 (proj2 (existing_slug_skipped (sample_env JNull) JNull
           {| db := [foo_row]; config_files := ∅; dir_created := false;
              connections := 0; printed := [] |}))
           0%nat foo_entry (py "Foo") (py "foo")
           (JStr (py "/games/Foo/foo.exe")) (JStr (py "/games/Foo"))
           (JStr (py "foo")) empty_state).
  - reflexivity.
  - apply list_elem_of_singleton. reflexivity.
Defined.

Lemma ready_inserted (E : env) (existing_slugs : list sqlval) (i : nat)
    (game : json) (st : state) (t s : pystr) (exe dir app : json) (r : row) :
  prepare E game = Ok (Ready t s exe dir app) ->
  SqlText s ∉ existing_slugs ->
  yaml_write E i = Written ->
  execute_insert E i t s (config_slug_of E i s) exe dir = Inserted r ->
  exists st',
    process_game E existing_slugs i game st = Continue st' /\
    pending st' = pending st ++ [r] /\
    slug r = SqlText s.
Proof.
  intros Hp Hnew Hwrite Hexec. unfold process_game.
  rewrite Hp, bool_decide_eq_false_2 by exact Hnew.
  destruct (get_heroic_game_config E app) as [heroic_config warnings].
  rewrite Hwrite. unfold insert_game. rewrite Hexec.
  eexists. split; [reflexivity|]. split; [reflexivity|].
  apply execute_insert_inserted in Hexec as (x & y & _ & _ & ->). reflexivity.
Qed.

Lemma run_loop_continue_rows (E : env) (existing_slugs : list sqlval)
    (games : list json) (i : nat) (st st' : state) :
  run_loop E existing_slugs i games st = Continue st' ->
  exists new_rows, pending st' = pending st ++ new_rows.
Proof.
  intros H.
  destruct (run_loop_new_rows E existing_slugs games i st) as (n & Hn & _).
  rewrite H in Hn. by exists n.
Qed.

Lemma run_games_manifest (E : env) (games : list json) (w : world) :
  run_games E (manifest_of games) w
  = run_loop E (map slug (db w)) 0 games (initial_state w).
Proof. reflexivity. Qed.

(** C9. The slugs of the catalog are read once, before the loop, and a slug
    inserted during the run is not added to them: when two entries of one
    manifest derive the same slug, the catalog did not hold it, both YAML
    files are written and both INSERTs succeed, a run that reaches the
    commit leaves the catalog with a row for each of the two entries, both
    under that slug. *)
Theorem same_slug_inserted_twice (E : env) (w : world)
    (before between after : list json) (game1 game2 : json) (st : state)
    (t1 t2 s : pystr) (exe1 dir1 app1 exe2 dir2 app2 : json) (r1 r2 : row) :
  let i1 := length before in
  let i2 := (length before + S (length between))%nat in
  let games := before ++ game1 :: between ++ game2 :: after in
  prepare E game1 = Ok (Ready t1 s exe1 dir1 app1) ->
  prepare E game2 = Ok (Ready t2 s exe2 dir2 app2) ->
  SqlText s ∉ map slug (db w) ->
  yaml_write E i1 = Written ->
  yaml_write E i2 = Written ->
  execute_insert E i1 t1 s (config_slug_of E i1 s) exe1 dir1 = Inserted r1 ->
  execute_insert E i2 t2 s (config_slug_of E i2 s) exe2 dir2 = Inserted r2 ->
  run_games E (manifest_of games) w = Continue st ->
  exists rows_a rows_b rows_c,
    db (import_games E (manifest_of games) w)
    = db w ++ rows_a ++ r1 :: rows_b ++ r2 :: rows_c /\
    slug r1 = SqlText s /\ slug r2 = SqlText s.
Proof.
  intros i1 i2 games Hp1 Hp2 Hnew Hw1 Hw2 Hx1 Hx2 Hrun.
  unfold import_games. rewrite Hrun. cbn [db].
  rewrite run_games_manifest in Hrun. unfold games in Hrun.
  rewrite run_loop_app in Hrun.
  destruct (run_loop E _ 0 before _) as [sa|] eqn:Ha; [|discriminate].
  apply run_loop_continue_rows in Ha as (rows_a & Ha).
  cbn [run_loop] in Hrun. rewrite Nat.add_0_l in Hrun.
  destruct (ready_inserted E (map slug (db w)) i1 game1 sa t1 s exe1 dir1 app1 r1
              Hp1 Hnew Hw1 Hx1) as (sb & Hb & Hpb & Hs1).
  fold i1 in Hrun. rewrite Hb in Hrun.
  rewrite run_loop_app in Hrun.
  destruct (run_loop E _ (S i1) between sb) as [sc|] eqn:Hc; [|discriminate].
  apply run_loop_continue_rows in Hc as (rows_b & Hc).
  cbn [run_loop] in Hrun.
  replace (S i1 + length between)%nat with i2 in Hrun by (unfold i1, i2; lia).
  destruct (ready_inserted E (map slug (db w)) i2 game2 sc t2 s exe2 dir2 app2 r2
              Hp2 Hnew Hw2 Hx2) as (sd & Hd & Hpd & Hs2).
  rewrite Hd in Hrun.
  apply run_loop_continue_rows in Hrun as (rows_c & Hrun).
  exists rows_a, rows_b, rows_c. split; [|auto].
  rewrite Hrun, Hpd, Hc, Hpb, Ha. cbn [initial_state pending app].
  f_equal. rewrite <- !app_assoc. reflexivity.
Qed.

Lemma same_slug_inserted_twice_witness :
  exists rows_a rows_b rows_c,
    db (import_games (sample_env JNull)
          (manifest_of ([] ++ foo_bar_entry :: [foo_entry] ++ foo_bar_entry' :: []))
          empty_world)
    = db empty_world ++ rows_a ++
        new_row (py "Foo: Bar") (py "foo-bar") (py "foo-bar-1700000000")
          (SqlText (py "/games/FooBar/a.exe")) (SqlText (py "/games/FooBar"))
        :: rows_b ++
        new_row (py "Foo Bar.") (py "foo-bar") (py "foo-bar-1700000000")
          (SqlText (py "/games/FooBar2/b.exe")) (SqlText (py "/games/FooBar2"))
        :: rows_c /\
    slug (new_row (py "Foo: Bar") (py "foo-bar") (py "foo-bar-1700000000")
            (SqlText (py "/games/FooBar/a.exe")) (SqlText (py "/games/FooBar")))
    = SqlText (py "foo-bar") /\
    slug (new_row (py "Foo Bar.") (py "foo-bar") (py "foo-bar-1700000000")
            (SqlText (py "/games/FooBar2/b.exe")) (SqlText (py "/games/FooBar2")))
    = SqlText (py "foo-bar").
Proof.
  eapply (same_slug_inserted_twice (sample_env JNull) empty_world
            [] [foo_entry] [] foo_bar_entry foo_bar_entry'
            _ (py "Foo: Bar") (py "Foo Bar.") (py "foo-bar")
            (JStr (py "/games/FooBar/a.exe")) (JStr (py "/games/FooBar"))
            (JStr (py "foobar1"))
            (JStr (py "/games/FooBar2/b.exe")) (JStr (py "/games/FooBar2"))
            (JStr (py "foobar2"))).
  - reflexivity.
  - reflexivity.
  - apply not_elem_of_nil.
  - reflexivity.
  - reflexivity.
  - reflexivity.
  - reflexivity.
  - vm_compute. reflexivity.
Defined.

(** ** The run *)

(** C3 as amended. An exception that leaves the loop is caught by the
    handler of the outer [try]: the traceback is printed after what the
    loop printed, the commit is not reached, so the catalog holds exactly
    the rows it held before the run, and the files written so far stay. *)
Theorem exception_skips_commit (E : env) (heroic_data : json) (w : world)
    (e : exn) (st : state) :
  run_games E heroic_data w = Raised e st ->
  let w' := import_games E heroic_data w in
  db w' = db w /\
  printed w' = console st ++ [PrintTraceback e] /\
  config_files w' = files st /\
  connections w' = S (connections w).
Proof.
  intros Hrun. unfold import_games. rewrite Hrun. cbn. auto.
Qed.

Lemma exception_skips_commit_witness :
  let w' := import_games (sample_env JNull) (manifest_of [foo_entry; broken_entry])
              empty_world in
  db w' = db empty_world /\
  printed w' =
    console (state_of (run_games (sample_env JNull)
                         (manifest_of [foo_entry; broken_entry]) empty_world))
    ++ [PrintTraceback AttributeError] /\
  config_files w' =
    files (state_of (run_games (sample_env JNull)
                       (manifest_of [foo_entry; broken_entry]) empty_world)) /\
  connections w' = S (connections empty_world).
Proof.
  apply (exception_skips_commit (sample_env JNull)
           (manifest_of [foo_entry; broken_entry]) empty_world AttributeError
           (state_of (run_games (sample_env JNull)
                        (manifest_of [foo_entry; broken_entry]) empty_world))).
  vm_compute. reflexivity.
Defined.

(** C3 as stated fails: with one good entry followed by an entry whose
    [install] member is null, the loop raises after the first row was
    inserted, and the catalog ends the run without that row. *)
Lemma partial_progress_not_committed :
  exists st,
    run_games (sample_env JNull) (manifest_of [foo_entry; broken_entry]) empty_world
    = Raised AttributeError st /\
    pending st = [foo_row] /\
    db (import_games (sample_env JNull) (manifest_of [foo_entry; broken_entry])
          empty_world) = [] /\
    db (import_games (sample_env JNull) (manifest_of [foo_entry; broken_entry])
          empty_world) <> db empty_world ++ pending st.
Proof.
  eexists. split; [vm_compute; reflexivity|].
  split; [reflexivity|]. split; [reflexivity|]. discriminate.
Qed.

Lemma add_heroic_games_to_lutris_printed (E : env) (w : world) :
  exists msgs, printed (add_heroic_games_to_lutris E w) = printed w ++ msgs.
Proof.
  unfold add_heroic_games_to_lutris.
  assert (Hdir : exists m0, printed (find_lutris_config_dir E w) = printed w ++ m0).
  { unfold find_lutris_config_dir. destruct (lutris_config_dir E); cbn [print printed].
    - exists []. by rewrite app_nil_r.
    - by eexists.
    - by eexists. }
  destruct Hdir as (m0 & Hdir).
  set (w1 := find_lutris_config_dir E w) in *.
  destruct (negb _).
  { cbn [print printed]. rewrite Hdir, <- app_assoc. by eexists. }
  destruct (heroic_library E) as [| |heroic_data];
    try (cbn [print printed]; rewrite Hdir, <- app_assoc; by eexists).
  unfold import_games, run_games.
  destruct (games ← py_get heroic_data (py "games") (JArr []); py_iter games)
    as [games|e].
  - destruct (run_loop_console E (map slug (db w1)) games 0 (initial_state w1))
      as (m1 & H1).
    destruct (run_loop E (map slug (db w1)) 0 games (initial_state w1)) as [st|e st];
      cbn [printed state_of initial_state console] in *;
      rewrite H1, Hdir, <- !app_assoc; by eexists.
  - cbn [printed initial_state console]. rewrite Hdir, <- app_assoc. by eexists.
Qed.

(** C7. The prompt comes before anything else the program does: whatever
    is typed, the console starts with the banner and the prompt.  When the
    lowercased answer is not the letter y, the program prints that it was
    cancelled and stops: the catalog, the configuration files and the
    configuration directory are as before and no connection was opened. *)
Theorem declined_prompt_no_effects (E : env) (response : pystr) (w : world) :
  lower (lower_nonascii E) response <> py "y" ->
  let w' := main E response w in
  db w' = db w /\
  config_files w' = config_files w /\
  dir_created w' = dir_created w /\
  connections w' = connections w /\
  printed w' = printed w ++ [PrintBanner; PrintPrompt; PrintCancelled] /\
  (forall answer, exists rest,
     printed (main E answer w) = printed w ++ PrintBanner :: PrintPrompt :: rest).
Proof.
  intros Hno. unfold main.
  rewrite bool_decide_eq_false_2 by exact Hno.
  cbn [print db config_files dir_created connections printed].
  rewrite <- app_assoc. repeat split.
  intros answer. case_bool_decide.
  - destruct (add_heroic_games_to_lutris_printed E (print [PrintBanner; PrintPrompt] w))
      as (msgs & Hm).
    cbn [print printed] in *. rewrite Hm, <- !app_assoc. by eexists.
  - cbn [print printed]. rewrite <- app_assoc. by eexists.
Qed.

Lemma declined_prompt_no_effects_witness :
  let w' := main (sample_env (manifest_of [foo_entry])) (py "N") empty_world in
  db w' = db empty_world /\
  config_files w' = config_files empty_world /\
  dir_created w' = dir_created empty_world /\
  connections w' = connections empty_world /\
  printed w' = printed empty_world ++ [PrintBanner; PrintPrompt; PrintCancelled] /\
  (forall answer, exists rest,
     printed (main (sample_env (manifest_of [foo_entry])) answer empty_world)
     = printed empty_world ++ PrintBanner :: PrintPrompt :: rest).
Proof.
  apply (declined_prompt_no_effects (sample_env (manifest_of [foo_entry]))
           (py "N") empty_world).
  discriminate.
Defined.

(** * Further properties *)

(** ** Slugs of ASCII titles *)

Lemma concat_imap_singleton {A B} (f : nat -> A -> list B) (g : A -> B) (l : list A) :
  (forall i x, x ∈ l -> f i x = [g x]) ->
  concat (imap f l) = map g l.
Proof.
  revert f. induction l as [|a l IH]; intros f Hf; [reflexivity|].
  cbn [imap concat map]. rewrite Hf by left. cbn [app]. f_equal.
  apply IH. intros i x Hx. apply Hf. by right.
Qed.

Lemma lower_ascii (L : pystr -> nat -> N -> pystr) (s : pystr) :
  is_ascii s -> lower L s = map ascii_lower s.
Proof.
  intros Hs. unfold lower. apply concat_imap_singleton.
  intros i x Hx. unfold lower_at.
  unfold is_ascii in Hs. rewrite Forall_forall in Hs.
  apply Hs, N.ltb_lt in Hx. by rewrite Hx.
Qed.

Lemma ascii_lower_idemp (c : N) : ascii_lower (ascii_lower c) = ascii_lower c.
Proof.
  unfold ascii_lower.
  destruct ((65 <=? c) && (c <=? 90)) eqn:Hup; [|by rewrite Hup].
  apply andb_prop in Hup as [Hlo%N.leb_le Hhi%N.leb_le].
  assert (Hgt : (c + 32 <=? 90) = false) by (apply N.leb_gt; lia).
  by rewrite Hgt, andb_false_r.
Qed.

Lemma ascii_lower_bound (c : N) : c < 128 -> ascii_lower c < 128.
Proof.
  unfold ascii_lower. intros Hc.
  destruct ((65 <=? c) && (c <=? 90)) eqn:Hup; [|exact Hc].
  apply andb_prop in Hup as [_ Hhi%N.leb_le]. lia.
Qed.

Lemma create_slug_ascii (L : pystr -> nat -> N -> pystr) (title : pystr) :
  is_ascii title ->
  create_slug L title = flat_map (fun c => slug_char (ascii_lower c)) title.
Proof.
  intros Ht. rewrite create_slug_flat_map, lower_ascii by exact Ht.
  unfold slug_spec. induction title as [|c t IH]; [reflexivity|].
  cbn [map flat_map]. rewrite IH; [reflexivity|]. by inversion Ht.
Qed.

(** What [slug_char] yields for a lowercased ASCII character is made of
    ASCII characters that a second derivation leaves alone. *)
Lemma slug_char_stable (c y : N) :
  c < 128 -> y ∈ slug_char (ascii_lower c) ->
  y < 128 /\ slug_char (ascii_lower y) = [y].
Proof.
  intros Hc. unfold slug_char at 1.
  destruct (N.eqb_spec (ascii_lower c) cp_space) as [_|Hsp].
  { intros ->%list_elem_of_singleton. split; [reflexivity|reflexivity]. }
  destruct (is_stripped (ascii_lower c)) eqn:Hs.
  { intros []%elem_of_nil. }
  destruct (N.eqb_spec (ascii_lower c) cp_ampersand) as [_|Ham].
  { intros Hy. cbv in Hy.
    repeat (apply elem_of_cons in Hy as [->|Hy]; [split; reflexivity|]).
    by apply elem_of_nil in Hy. }
  intros ->%list_elem_of_singleton. split; [by apply ascii_lower_bound|].
  rewrite ascii_lower_idemp. unfold slug_char.
  apply N.eqb_neq in Hsp, Ham. by rewrite Hsp, Hs, Ham.
Qed.

Lemma create_slug_is_ascii (L : pystr -> nat -> N -> pystr) (title : pystr) :
  is_ascii title -> is_ascii (create_slug L title).
Proof.
  intros Ht. rewrite create_slug_ascii by exact Ht.
  unfold is_ascii in *. rewrite Forall_forall in *. intros y Hy.
  rewrite list_elem_of_In, in_flat_map in Hy. destruct Hy as (c & Hc & Hy).
  rewrite <- list_elem_of_In in Hc, Hy.
  apply (slug_char_stable c y); [by apply Ht | exact Hy].
Qed.

(** X1. A slug holds no space and no ampersand, whatever the title and
    the lowercase table. *)
Theorem create_slug_no_space_no_ampersand (L : pystr -> nat -> N -> pystr)
    (title : pystr) :
  (cp_space ∉ create_slug L title) /\ (cp_ampersand ∉ create_slug L title).
Proof.
  rewrite create_slug_flat_map. unfold slug_spec.
  assert (H : forall y, y ∈ flat_map slug_char (lower L title) ->
                        y <> cp_space /\ y <> cp_ampersand).
  { intros y Hy. rewrite list_elem_of_In, in_flat_map in Hy.
    destruct Hy as (x & _ & Hy). rewrite <- list_elem_of_In in Hy.
    unfold slug_char in Hy.
    destruct (N.eqb_spec x cp_space) as [_|Hsp].
    { apply list_elem_of_singleton in Hy as ->. split; discriminate. }
    destruct (is_stripped x); [by apply elem_of_nil in Hy|].
    destruct (N.eqb_spec x cp_ampersand) as [_|Ham].
    { cbv in Hy.
      repeat (apply elem_of_cons in Hy as [->|Hy]; [split; discriminate|]).
      by apply elem_of_nil in Hy. }
    apply list_elem_of_singleton in Hy as ->. auto. }
  split; intros Hin; apply H in Hin as [? ?]; congruence.
Qed.

Lemma create_slug_ascii_app (L : pystr -> nat -> N -> pystr) (t1 t2 : pystr) :
  is_ascii t1 -> is_ascii t2 ->
  create_slug L (t1 ++ t2) = create_slug L t1 ++ create_slug L t2.
Proof.
  intros H1 H2.
  rewrite !create_slug_ascii; [apply flat_map_app|assumption..|].
  by apply Forall_app.
Qed.

(** X2. On ASCII titles [create_slug] works character by character: the
    slug of a concatenation is the concatenation of the slugs. *)
Theorem create_slug_app (L : pystr -> nat -> N -> pystr) (t1 t2 : pystr) :
  is_ascii t1 -> is_ascii t2 ->
  create_slug L (t1 ++ t2) = create_slug L t1 ++ create_slug L t2.
Proof. apply create_slug_ascii_app. Qed.

Lemma create_slug_app_witness :
  create_slug uncased (py "Half-Life" ++ py " 2")
  = create_slug uncased (py "Half-Life") ++ create_slug uncased (py " 2").
Proof.
  apply create_slug_app; unfold is_ascii; repeat constructor.
Defined.

(** X3. On ASCII titles [create_slug] is idempotent: the slug of a slug is
    that slug. *)
Theorem create_slug_idempotent (L : pystr -> nat -> N -> pystr) (title : pystr) :
  is_ascii title ->
  create_slug L (create_slug L title) = create_slug L title.
Proof.
  intros Ht.
  rewrite (create_slug_ascii L (create_slug L title))
    by (by apply create_slug_is_ascii).
  rewrite (create_slug_ascii L title) by exact Ht.
  induction title as [|c t IH]; [reflexivity|].
  cbn [flat_map]. rewrite flat_map_app, IH by (by inversion Ht). f_equal.
  assert (Hc : c < 128) by (by inversion Ht).
  pose proof (slug_char_stable c) as Hst.
  induction (slug_char (ascii_lower c)) as [|y l IHl]; [reflexivity|].
  cbn [flat_map].
  destruct (Hst y Hc) as [_ ->]; [left|].
  cbn [app]. f_equal. apply IHl. intros y' Hc' Hy'. apply Hst; [exact Hc'|by right].
Qed.

Lemma create_slug_idempotent_witness :
  create_slug uncased (create_slug uncased (py "Tom & Jerry: The Game"))
  = create_slug uncased (py "Tom & Jerry: The Game").
Proof. apply create_slug_idempotent. unfold is_ascii. repeat constructor. Defined.

(** X4. The slug of an ASCII title does not depend on the case of its
    letters nor on its colons, apostrophes and full stops: titles that
    differ only in those collide. *)
Theorem create_slug_collisions (L : pystr -> nat -> N -> pystr)
    (t1 t2 : pystr) (c : N) :
  is_ascii t1 -> is_ascii t2 ->
  c = cp_colon \/ c = cp_apostrophe \/ c = cp_full_stop ->
  create_slug L (t1 ++ c :: t2) = create_slug L (t1 ++ t2) /\
  create_slug L (map ascii_lower t1) = create_slug L t1.
Proof.
  intros H1 H2 Hc. split.
  - assert (Hc1 : is_ascii [c]).
    { repeat constructor. destruct Hc as [-> | [-> | ->]]; reflexivity. }
    change (c :: t2) with ([c] ++ t2).
    rewrite !create_slug_ascii_app by (try assumption; by apply Forall_app).
    replace (create_slug L [c]) with (@nil N); [reflexivity|].
    rewrite create_slug_ascii by exact Hc1.
    destruct Hc as [-> | [-> | ->]]; reflexivity.
  - rewrite !create_slug_ascii; try assumption.
    + rewrite flat_map_concat_map, map_map, <- flat_map_concat_map.
      apply flat_map_ext. intros a. by rewrite ascii_lower_idemp.
    + unfold is_ascii in *. rewrite Forall_forall in *. intros y Hy.
      rewrite list_elem_of_In, in_map_iff in Hy. destruct Hy as (x & Hy & Hx).
      subst y. apply ascii_lower_bound, H1. by apply list_elem_of_In.
Qed.

Lemma create_slug_collisions_witness :
  create_slug uncased (py "Dr" ++ cp_full_stop :: py " Who")
  = create_slug uncased (py "Dr" ++ py " Who") /\
  create_slug uncased (map ascii_lower (py "Dr")) = create_slug uncased (py "Dr").
Proof.
  apply create_slug_collisions.
  - unfold is_ascii. repeat constructor.
  - unfold is_ascii. repeat constructor.
  - right. right. reflexivity.
Defined.

(** ** [os.path.dirname] and the directory of a row *)

Lemma rfind_succ_no_slash (c : N) (s : pystr) : c ∉ s -> rfind_succ c s = 0%nat.
Proof.
  induction s as [|x s IH]; [reflexivity|].
  intros Hc. cbn [rfind_succ]. rewrite IH by (intros H; apply Hc; by right).
  destruct (N.eqb_spec x c) as [->|_]; [|reflexivity].
  exfalso. apply Hc. left.
Qed.

Lemma rstrip_prefix (c : N) (s : pystr) : rstrip c s `prefix_of` s.
Proof.
  induction s as [|x s IH]; [done|].
  cbn [rstrip]. destruct (rstrip c s) as [|y r].
  - destruct (x =? c); [apply prefix_nil | apply prefix_cons, prefix_nil].
  - by apply prefix_cons.
Qed.

Lemma rstrip_last (c : N) (s : pystr) (y : N) :
  last (rstrip c s) = Some y -> y <> c.
Proof.
  induction s as [|x s IH]; [discriminate|].
  cbn [rstrip]. destruct (rstrip c s) as [|z r].
  - destruct (N.eqb_spec x c) as [_|Hx]; [discriminate|].
    cbn. intros [= <-]. exact Hx.
  - intros H. apply IH. exact H.
Qed.

Lemma dirname_no_slash (p : pystr) : cp_slash ∉ p -> dirname p = [].
Proof. intros Hp. unfold dirname. by rewrite rfind_succ_no_slash. Qed.

(** X5. [dirname] returns a prefix of the path; it is empty when the path
    holds no slash, and it ends with a slash only when it consists of
    slashes. *)
Theorem dirname_shape (p : pystr) :
  dirname p `prefix_of` p /\
  (cp_slash ∉ p -> dirname p = []) /\
  (last (dirname p) = Some cp_slash -> Forall (fun c => c = cp_slash) (dirname p)).
Proof.
  split; [|split].
  - unfold dirname. destruct (take _ p) as [|x h] eqn:Hh; [apply prefix_nil|].
    rewrite <- Hh.
    destruct (forallb _ _); [apply prefix_take|].
    etrans; [apply rstrip_prefix | apply prefix_take].
  - apply dirname_no_slash.
  - unfold dirname. destruct (take _ p) as [|x h]; [discriminate|].
    destruct (forallb (N.eqb cp_slash) (x :: h)) eqn:Hall.
    + intros _. rewrite forallb_forall in Hall. apply Forall_forall.
      intros c Hc. apply list_elem_of_In, Hall, N.eqb_eq in Hc. done.
    + intros Hl. by apply rstrip_last in Hl.
Qed.

Lemma dirname_shape_witness : dirname (py "foo.exe") = [].
Proof.
  apply (proj1 (proj2 (dirname_shape (py "foo.exe")))).
  intros H. cbv in H.
  repeat (apply elem_of_cons in H as [H|H]; [discriminate|]).
  by apply elem_of_nil in H.
Defined.








(** ** Invariants of the loop *)

(** What one iteration does to the pending rows and the counters. *)
Lemma process_game_effect (E : env) (existing_slugs : list sqlval) (i : nat)
    (game : json) (st : state) :
  (exists st', process_game E existing_slugs i game st = Continue st' /\
     pending st' = pending st /\
     added_games st' = added_games st /\
     skipped_games st' = ((if counted E game then 1 else 0) + skipped_games st)%nat) \/
  (exists st' r, process_game E existing_slugs i game st = Continue st' /\
     pending st' = pending st ++ [r] /\
     inserted_by E existing_slugs i game r /\
     counted E game = true /\
     added_games st' = S (added_games st) /\
     skipped_games st' = skipped_games st) \/
  (exists e st', process_game E existing_slugs i game st = Raised e st' /\
     pending st' = pending st /\
     added_games st' = added_games st /\
     skipped_games st' = skipped_games st).
Proof.
  unfold process_game, counted, inserted_by.
  destruct (prepare E game) as [[| |t|t s exe dir app]|e] eqn:Hp.
  - left. eexists. by repeat split.
  - left. eexists. by repeat split.
  - left. eexists. by repeat split.
  - case_bool_decide as Hex.
    { left. eexists. by repeat split. }
    destruct (get_heroic_game_config E app) as [heroic_config warnings].
    destruct (yaml_write E i) eqn:Hw.
    + unfold insert_game.
      destruct (execute_insert E i t s _ exe dir) as [r| |e] eqn:Hx.
      * right. left. eexists _, r. split; [reflexivity|].
        cbn [pending added_games skipped_games]. repeat split.
        by exists t, s, exe, dir, app.
      * left. eexists. by repeat split.
      * right. right. eexists _, _. by repeat split.
    + left. eexists. by repeat split.
    + left. eexists. by repeat split.
  - right. right. eexists _, _. by repeat split.
Qed.

Lemma inserted_by_shape (E : env) (existing_slugs : list sqlval) (i : nat)
    (game : json) (r : row) :
  inserted_by E existing_slugs i game r ->
  exists t,
    name r = SqlText t /\
    slug r = SqlText (create_slug (lower_nonascii E) t) /\
    (slug r ∉ existing_slugs) /\
    runner r = SqlText (py "wine") /\
    installed r = SqlInt 1 /\
    configpath r = SqlText (create_slug (lower_nonascii E) t ++ [cp_hyphen]
                            ++ str_of_int (clock E i)).
Proof.
  intros (t & s & exe & dir & app & Hp & Hnew & _ & Hx).
  apply prepare_ready_inv in Hp as (d & _ & _ & ->).
  apply execute_insert_inserted in Hx as (x & y & _ & _ & ->).
  exists t. cbn [new_row name slug runner installed configpath]. by repeat split.
Qed.

(** The rows a loop adds, each with the entry it stems from. *)
Lemma run_loop_rows (E : env) (existing_slugs : list sqlval)
    (games : list json) (i : nat) (st : state) :
  exists new_rows,
    pending (state_of (run_loop E existing_slugs i games st)) = pending st ++ new_rows /\
    Forall (fun r => exists k game,
              games !! k = Some game /\
              inserted_by E existing_slugs (i + k) game r) new_rows.
Proof.
  revert i st. induction games as [|game rest IH]; intros i st.
  - exists []. split; [symmetry; apply app_nil_r | constructor].
  - cbn [run_loop].
    destruct (process_game_effect E existing_slugs i game st)
      as [(st' & -> & Hp & _)|[(st' & r & -> & Hp & Hr & _)|(e & st' & -> & Hp & _)]].
    + destruct (IH (S i) st') as (n & Hn & Hall).
      exists n. split; [by rewrite Hn, Hp|].
      eapply Forall_impl; [exact Hall|].
      intros r (k & g & Hk & Hr). exists (S k), g. split; [exact Hk|].
      by rewrite Nat.add_succ_r.
    + destruct (IH (S i) st') as (n & Hn & Hall).
      exists (r :: n). split; [by rewrite Hn, Hp, <- app_assoc|].
      constructor.
      * exists 0%nat, game. split; [reflexivity|]. by rewrite Nat.add_0_r.
      * eapply Forall_impl; [exact Hall|].
        intros r' (k & g & Hk & Hr'). exists (S k), g. split; [exact Hk|].
        by rewrite Nat.add_succ_r.
    + exists []. cbn [state_of]. rewrite Hp, app_nil_r. auto.
Qed.

Lemma sql_bind_str (s : pystr) (v : sqlval) :
  sql_bind (JStr s) = Bound v -> v = SqlText s.
Proof. cbn [sql_bind]. destruct (encodable s); [by intros [= <-] | discriminate]. Qed.

(** The row an iteration adds for a complete entry. *)
Lemma inserted_row_of_ready (E : env) (existing_slugs : list sqlval) (i : nat)
    (game : json) (st st' : state) (r : row) (t s : pystr) (exe dir app : json) :
  prepare E game = Ok (Ready t s exe dir app) ->
  process_game E existing_slugs i game st = Continue st' ->
  pending st' = pending st ++ [r] ->
  exists e d, sql_bind exe = Bound e /\ sql_bind dir = Bound d /\
              r = new_row t s (config_slug_of E i s) e d.
Proof.
  intros Hprep Hstep Hrow.
  destruct (process_game_effect E existing_slugs i game st)
    as [(s1 & H1 & Hp & _)|[(s1 & r' & H1 & Hp & Hby & _)|(e & s1 & H1 & _)]];
    rewrite H1 in Hstep; [| |discriminate]; injection Hstep as ->.
  - rewrite Hp in Hrow. apply (f_equal length) in Hrow.
    rewrite length_app in Hrow. cbn in Hrow. lia.
  - rewrite Hp in Hrow. apply app_inv_head in Hrow. injection Hrow as ->.
    destruct Hby as (t' & s' & exe' & dir' & app' & Hprep' & _ & _ & Hx).
    rewrite Hprep in Hprep'. injection Hprep' as <- <- <- <- <-.
    exact (execute_insert_inserted E i _ _ _ _ _ _ Hx).
Qed.

(** C6. For an installed entry whose executable path is a non-empty string
    and whose install path is missing or false, the row the iteration
    inserts holds [os.path.dirname] of the executable path as its
    directory; that is the path before the last slash, and for
    /games/Foo/foo.exe it is /games/Foo. *)
Theorem directory_falls_back_to_dirname (E : env) (existing_slugs : list sqlval)
    (i : nat) (d inst : list (pystr * json)) (t exe : pystr) (st st' : state)
    (r : row) :
  truthy (default (JBool false) (dict_lookup (py "is_installed") d)) = true ->
  dict_lookup (py "title") d = Some (JStr t) -> t <> [] ->
  dict_lookup (py "install") d = Some (JObj inst) ->
  dict_lookup (py "executable") inst = Some (JStr exe) -> exe <> [] ->
  truthy (default JNull (dict_lookup (py "path") inst)) = false ->
  process_game E existing_slugs i (JObj d) st = Continue st' ->
  pending st' = pending st ++ [r] ->
  (name r = SqlText t /\
   executable r = SqlText exe /\
   directory r = SqlText (dirname exe)) /\
  (forall parent file_name x,
     last parent = Some x -> x <> cp_slash -> cp_slash ∉ file_name ->
     exe = parent ++ cp_slash :: file_name -> dirname exe = parent) /\
  dirname (py "/games/Foo/foo.exe") = py "/games/Foo".
Proof.
  intros Hflag Htitle Ht Hinst Hexe He Hpath Hstep Hrow.
  split; [|split].
  - destruct (inserted_row_of_ready E existing_slugs i (JObj d) st st' r _ _ _ _ _
                (prepare_ready E d inst t exe Hflag Htitle Ht Hinst Hexe He Hpath)
                Hstep Hrow) as (x & y & Hx%sql_bind_str & Hy%sql_bind_str & ->).
    subst x y. cbn [new_row name executable directory]. auto.
  - intros parent file_name x Hlast Hx Hf ->. by eapply dirname_parent.
  - vm_compute. reflexivity.
Qed.

Lemma directory_falls_back_to_dirname_witness :
  (name foo_row = SqlText (py "Foo") /\
   executable foo_row = SqlText (py "/games/Foo/foo.exe") /\
   directory foo_row = SqlText (dirname (py "/games/Foo/foo.exe"))) /\
  (forall parent file_name x,
     last parent = Some x -> x <> cp_slash -> cp_slash ∉ file_name ->
     py "/games/Foo/foo.exe" = parent ++ cp_slash :: file_name ->
     dirname (py "/games/Foo/foo.exe") = parent) /\
  dirname (py "/games/Foo/foo.exe") = py "/games/Foo".
Proof.
  apply (directory_falls_back_to_dirname (sample_env JNull) [] 0%nat
           [(py "app_name", JStr (py "foo")); (py "title", JStr (py "Foo"));
            (py "is_installed", JBool true);
            (py "install", JObj [(py "executable", JStr (py "/games/Foo/foo.exe"))])]
           [(py "executable", JStr (py "/games/Foo/foo.exe"))]
           (py "Foo") (py "/games/Foo/foo.exe") empty_state
           (state_of (process_game (sample_env JNull) [] 0 foo_entry empty_state))
           foo_row).
  - reflexivity.
  - reflexivity.
  - discriminate.
  - reflexivity.
  - reflexivity.
  - discriminate.
  - reflexivity.
  - reflexivity.
  - reflexivity.
Defined.

(** X6. When the executable is given without any slash and there is no
    install path, the row the iteration inserts has the empty string as
    its directory. *)
Theorem bare_executable_empty_directory (E : env) (existing_slugs : list sqlval)
    (i : nat) (d inst : list (pystr * json)) (t exe : pystr) (st st' : state)
    (r : row) :
  truthy (default (JBool false) (dict_lookup (py "is_installed") d)) = true ->
  dict_lookup (py "title") d = Some (JStr t) -> t <> [] ->
  dict_lookup (py "install") d = Some (JObj inst) ->
  dict_lookup (py "executable") inst = Some (JStr exe) -> exe <> [] ->
  truthy (default JNull (dict_lookup (py "path") inst)) = false ->
  cp_slash ∉ exe ->
  process_game E existing_slugs i (JObj d) st = Continue st' ->
  pending st' = pending st ++ [r] ->
  executable r = SqlText exe /\ directory r = SqlText [].
Proof.
  intros Hflag Htitle Ht Hinst Hexe He Hpath Hbare Hstep Hrow.
  destruct (inserted_row_of_ready E existing_slugs i (JObj d) st st' r _ _ _ _ _
              (prepare_ready E d inst t exe Hflag Htitle Ht Hinst Hexe He Hpath)
              Hstep Hrow) as (x & y & Hx%sql_bind_str & Hy%sql_bind_str & ->).
  subst x y. cbn [new_row executable directory].
  by rewrite (dirname_no_slash exe Hbare).
Qed.

Lemma bare_executable_empty_directory_witness :
  executable
    {| name := SqlText (py "Foo"); slug := SqlText (py "foo");
       runner := SqlText (py "wine"); executable := SqlText (py "foo.exe");
       directory := SqlText []; installed := SqlInt 1;
       configpath := SqlText (py "foo-1700000000") |} = SqlText (py "foo.exe") /\
  directory
    {| name := SqlText (py "Foo"); slug := SqlText (py "foo");
       runner := SqlText (py "wine"); executable := SqlText (py "foo.exe");
       directory := SqlText []; installed := SqlInt 1;
       configpath := SqlText (py "foo-1700000000") |} = SqlText [].
Proof.
  apply (bare_executable_empty_directory (sample_env JNull) [] 0%nat
           [(py "app_name", JStr (py "foo")); (py "title", JStr (py "Foo"));
            (py "is_installed", JBool true);
            (py "install", JObj [(py "executable", JStr (py "foo.exe"))])]
           [(py "executable", JStr (py "foo.exe"))]
           (py "Foo") (py "foo.exe") empty_state
           (state_of (process_game (sample_env JNull) [] 0
                        (entry "foo" "Foo" "foo.exe") empty_state)));
    try reflexivity; try discriminate.
  intros H. cbv in H.
  repeat (apply elem_of_cons in H as [H|H]; [discriminate|]).
  by apply elem_of_nil in H.
Defined.

(** X7. When the install path is a non-empty string, the row the
    iteration inserts has that path as its directory, unchanged, and what
    the executable binds to as its executable: dirname is not consulted. *)
Theorem explicit_install_path_kept (E : env) (existing_slugs : list sqlval)
    (i : nat) (d inst : list (pystr * json)) (t p : pystr) (exe : json)
    (st st' : state) (r : row) :
  truthy (default (JBool false) (dict_lookup (py "is_installed") d)) = true ->
  dict_lookup (py "title") d = Some (JStr t) -> t <> [] ->
  dict_lookup (py "install") d = Some (JObj inst) ->
  dict_lookup (py "executable") inst = Some exe -> truthy exe = true ->
  dict_lookup (py "path") inst = Some (JStr p) -> p <> [] ->
  process_game E existing_slugs i (JObj d) st = Continue st' ->
  pending st' = pending st ++ [r] ->
  sql_bind exe = Bound (executable r) /\ directory r = SqlText p.
Proof.
  intros Hflag Htitle Ht Hinst Hexe He Hpath Hp Hstep Hrow.
  assert (Hprep : prepare E (JObj d)
    = Ok (Ready t (create_slug (lower_nonascii E) t) exe (JStr p)
            (default JNull (dict_lookup (py "app_name") d)))).
  { unfold prepare. cbn [py_get mbind result_bind].
    rewrite Hflag, Htitle, Hinst. cbn [default from_option id negb truthy].
    destruct t as [|c t]; [contradiction|].
    cbn [slug_of mbind result_bind py_get title_of].
    rewrite Hexe, Hpath. cbn [default from_option id]. rewrite He.
    destruct p as [|x p]; [contradiction|]. reflexivity. }
  destruct (inserted_row_of_ready E existing_slugs i (JObj d) st st' r _ _ _ _ _
              Hprep Hstep Hrow) as (x & y & Hx & Hy%sql_bind_str & ->).
  subst y. cbn [new_row executable directory]. auto.
Qed.

Lemma explicit_install_path_kept_witness :
  let r := {| name := SqlText (py "Foo"); slug := SqlText (py "foo");
              runner := SqlText (py "wine");
              executable := SqlText (py "/opt/foo/bin/foo.exe");
              directory := SqlText (py "/opt/foo"); installed := SqlInt 1;
              configpath := SqlText (py "foo-1700000000") |} in
  sql_bind (JStr (py "/opt/foo/bin/foo.exe")) = Bound (executable r) /\
  directory r = SqlText (py "/opt/foo").
Proof.
  apply (explicit_install_path_kept (sample_env JNull) [] 0%nat
           [(py "title", JStr (py "Foo")); (py "is_installed", JBool true);
            (py "install", JObj [(py "executable", JStr (py "/opt/foo/bin/foo.exe"));
                                 (py "path", JStr (py "/opt/foo"))])]
           [(py "executable", JStr (py "/opt/foo/bin/foo.exe"));
            (py "path", JStr (py "/opt/foo"))]
           (py "Foo") (py "/opt/foo") (JStr (py "/opt/foo/bin/foo.exe"))
           empty_state
           (state_of (process_game (sample_env JNull) [] 0
              (JObj [(py "title", JStr (py "Foo")); (py "is_installed", JBool true);
                     (py "install",
                      JObj [(py "executable", JStr (py "/opt/foo/bin/foo.exe"));
                            (py "path", JStr (py "/opt/foo"))])])
              empty_state)));
    try reflexivity; discriminate.
Defined.

(** X11. Every row a run adds to the catalog stems from an entry of the
    manifest: its name is the title of that entry, its slug is the slug of
    that title and was not in the catalog before the run, its runner is
    wine, its installed flag is 1, and its configpath is the slug, a hyphen
    and the time of the iteration. *)
Theorem imported_rows_shape (E : env) (games : list json) (w : world) :
  exists new_rows,
    db (import_games E (manifest_of games) w) = db w ++ new_rows /\
    Forall (fun r => exists k d t,
              games !! k = Some (JObj d) /\
              dict_lookup (py "title") d = Some (JStr t) /\
              name r = SqlText t /\
              slug r = SqlText (create_slug (lower_nonascii E) t) /\
              (slug r ∉ map slug (db w)) /\
              runner r = SqlText (py "wine") /\
              installed r = SqlInt 1 /\
              configpath r = SqlText (create_slug (lower_nonascii E) t ++ [cp_hyphen]
                                      ++ str_of_int (clock E k))) new_rows.
Proof.
  unfold import_games. rewrite run_games_manifest.
  destruct (run_loop_rows E (map slug (db w)) games 0 (initial_state w))
    as (new_rows & Hnew & Hall).
  destruct (run_loop E (map slug (db w)) 0 games (initial_state w)) as [st|e st].
  - exists new_rows. cbn [db state_of initial_state pending app] in *.
    split; [by rewrite Hnew|].
    eapply Forall_impl; [exact Hall|].
    intros r (k & g & Hk & Hr). cbn [Nat.add] in Hr.
    pose proof Hr as (t' & s & exe & dir & app & Hp & _ & _ & Hx).
    apply prepare_ready_inv in Hp as (d & -> & Ht & _).
    apply inserted_by_shape in Hr as (t & Hn & Hr).
    assert (t' = t) as ->.
    { apply execute_insert_inserted in Hx as (x & y & _ & _ & ->).
      cbn in Hn. by injection Hn. }
    exists k, d, t. tauto.
  - exists []. cbn [db]. by rewrite app_nil_r.
Qed.

Lemma run_loop_counters (E : env) (existing_slugs : list sqlval)
    (games : list json) (i : nat) (st st' : state) :
  run_loop E existing_slugs i games st = Continue st' ->
  (added_games st' + length (pending st) = added_games st + length (pending st'))%nat /\
  (added_games st' + skipped_games st'
   = added_games st + skipped_games st + length (filter (fun g => counted E g = true) games))%nat.
Proof.
  revert i st. induction games as [|game rest IH]; intros i st.
  - intros [= <-]. cbn. lia.
  - cbn [run_loop]. rewrite filter_cons.
    destruct (process_game_effect E existing_slugs i game st)
      as [(s1 & -> & Hp & Ha & Hs)|[(s1 & r & -> & Hp & _ & Hc & Ha & Hs)
                                   |(e & s1 & -> & _)]];
      [| |discriminate].
    + intros Hrun. apply IH in Hrun as [H1 H2]. rewrite Hp, Ha in H1.
      rewrite Ha, Hs in H2. split; [exact H1|].
      destruct (counted E game); [rewrite decide_True by done|rewrite decide_False by done];
        cbn [length]; lia.
    + intros Hrun. apply IH in Hrun as [H1 H2]. rewrite Hp, Ha, length_app in H1.
      rewrite Ha, Hs in H2. rewrite Hc, decide_True by done.
      cbn [length] in *. lia.
Qed.

(** X12. The summary of a run that reaches the commit is exact: the number
    printed as added is the number of rows the catalog gained, and added
    plus skipped is the number of entries of the manifest that are not
    passed over as not installed. *)
Theorem summary_counts_rows (E : env) (games : list json) (w : world) (st : state) :
  run_games E (manifest_of games) w = Continue st ->
  let w' := import_games E (manifest_of games) w in
  last (printed w') = Some (PrintSummary (added_games st) (skipped_games st)) /\
  length (db w') = (length (db w) + added_games st)%nat /\
  (added_games st + skipped_games st
   = length (filter (fun g => counted E g = true) games))%nat.
Proof.
  intros Hrun. unfold import_games. rewrite Hrun. cbn [printed db].
  rewrite last_snoc, length_app.
  rewrite run_games_manifest in Hrun.
  apply run_loop_counters in Hrun as [H1 H2].
  cbn [initial_state added_games skipped_games pending length] in *.
  split; [reflexivity|]. split; lia.
Qed.

Lemma summary_counts_rows_witness :
  let games := [foo_entry; JObj [(py "is_installed", JBool false)];
                JObj [(py "is_installed", JBool true)]] in
  let w' := import_games (sample_env JNull) (manifest_of games) empty_world in
  last (printed w') = Some (PrintSummary 1 1) /\
  length (db w') = (length (db empty_world) + 1)%nat /\
  (1 + 1 = length (filter (fun g => counted (sample_env JNull) g = true) games))%nat.
Proof.
  eapply (summary_counts_rows (sample_env JNull)
            [foo_entry; JObj [(py "is_installed", JBool false)];
             JObj [(py "is_installed", JBool true)]]
            empty_world
            {| files := _; pending := _; added_games := 1; skipped_games := 1;
               console := _ |}).
  vm_compute. reflexivity.
Defined.

Lemma process_game_frame (E : env) (existing_slugs : list sqlval) (i : nat)
    (game : json) (st : state) (p : pystr) :
  (forall s, yaml_path E (config_slug_of E i s) <> p) ->
  files (state_of (process_game E existing_slugs i game st)) !! p = files st !! p.
Proof.
  intros Hp. unfold process_game.
  destruct (prepare E game) as [[| |t|t s exe dir app]|e]; try reflexivity.
  case_bool_decide; [reflexivity|].
  destruct (get_heroic_game_config E app) as [heroic_config warnings].
  destruct (yaml_write E i); cbn [state_of skip files]; [| reflexivity |].
  - unfold insert_game. destruct (execute_insert E i t s _ exe dir);
      cbn [state_of insert_failed files].
    + by apply lookup_insert_ne.
    + rewrite unlink_after_write. by apply lookup_delete_ne.
    + by apply lookup_insert_ne.
  - by apply lookup_insert_ne.
Qed.

(** X13. The loop touches no file but the YAML paths of its own config
    slugs: a path that is not the YAML path of a slug followed by a hyphen
    and the time of one of the iterations holds after the run what it
    held before, also when the run ends in an exception. *)
Theorem other_files_untouched (E : env) (heroic_data : json) (w : world)
    (p : pystr) :
  (forall i s, yaml_path E (config_slug_of E i s) <> p) ->
  config_files (import_games E heroic_data w) !! p = config_files w !! p.
Proof.
  intros Hp.
  assert (Hloop : forall games i st,
    files (state_of (run_loop E (map slug (db w)) i games st)) !! p = files st !! p).
  { induction games as [|game rest IH]; intros i st; [reflexivity|].
    cbn [run_loop].
    pose proof (process_game_frame E (map slug (db w)) i game st p (Hp i)) as Hstep.
    destruct (process_game E (map slug (db w)) i game st) as [st'|e st'].
    - rewrite IH. exact Hstep.
    - exact Hstep. }
  unfold import_games, run_games.
  destruct (games ← py_get heroic_data (py "games") (JArr []); py_iter games)
    as [games|e]; [|reflexivity].
  specialize (Hloop games 0%nat (initial_state w)).
  by destruct (run_loop E (map slug (db w)) 0 games (initial_state w)).
Qed.

Lemma other_files_untouched_witness :
  let E := {| lower_nonascii := uncased; yaml_path := fun config_slug => config_slug;
              clock := fun _ => 0%Z; yaml_write := fun _ => Written;
              db_insert := fun _ => InsertOk; heroic_config_file := fun _ => Absent;
              heroic_library := LibMissing; lutris_db_exists := true;
              lutris_config_dir := DirFound |} in
  config_files (import_games E (manifest_of [foo_entry]) empty_world) !! py "notes"
  = config_files empty_world !! py "notes".
Proof.
  apply (other_files_untouched
           {| lower_nonascii := uncased; yaml_path := fun config_slug => config_slug;
              clock := fun _ => 0%Z; yaml_write := fun _ => Written;
              db_insert := fun _ => InsertOk; heroic_config_file := fun _ => Absent;
              heroic_library := LibMissing; lutris_db_exists := true;
              lutris_config_dir := DirFound |}
           (manifest_of [foo_entry]) empty_world (py "notes")).
  intros i s H. cbn [yaml_path] in H. unfold config_slug_of in H.
  cbn [clock] in H.
  apply (f_equal (@last N)) in H. rewrite app_assoc, last_app in H.
  vm_compute in H. discriminate.
Defined.

(** ** Running twice, and running into a bad entry *)

(** Whether an iteration raises does not depend on the state it starts in. *)
Lemma process_game_raised_any_state (E : env) (existing_slugs : list sqlval)
    (i : nat) (game : json) (st1 st2 : state) :
  match process_game E existing_slugs i game st1 with
  | Continue _ => exists s, process_game E existing_slugs i game st2 = Continue s
  | Raised e _ => exists s, process_game E existing_slugs i game st2 = Raised e s
  end.
Proof.
  unfold process_game.
  destruct (prepare E game) as [[| |t|t s exe dir app]|e]; try (by eexists).
  case_bool_decide; [by eexists|].
  destruct (get_heroic_game_config E app) as [heroic_config warnings].
  destruct (yaml_write E i); try (by eexists).
  unfold insert_game. destruct (execute_insert E i t s _ exe dir); by eexists.
Qed.

Lemma run_loop_raised_any_state (E : env) (existing_slugs : list sqlval)
    (games : list json) (i : nat) (st1 st2 : state) (e : exn) (s1 : state) :
  run_loop E existing_slugs i games st1 = Raised e s1 ->
  exists s2, run_loop E existing_slugs i games st2 = Raised e s2.
Proof.
  revert i st1 st2. induction games as [|game rest IH]; intros i st1 st2;
    [discriminate|].
  cbn [run_loop].
  pose proof (process_game_raised_any_state E existing_slugs i game st1 st2) as Hstep.
  destruct (process_game E existing_slugs i game st1) as [sa|e' sa].
  - destruct Hstep as (sb & ->). apply IH.
  - destruct Hstep as (sb & ->). intros [= <- <-]. by eexists.
Qed.

(** An iteration that inserted nothing or a row whose slug is now known
    inserts nothing when it is run again with the larger set of slugs. *)
Lemma rerun_step (E : env) (ex1 ex2 : list sqlval) (i : nat) (game : json)
    (st1 sa st2 : state) (new_rows : list row) :
  process_game E ex1 i game st1 = Continue sa ->
  pending sa = pending st1 ++ new_rows ->
  (forall v, v ∈ ex1 -> v ∈ ex2) ->
  (forall r, r ∈ new_rows -> slug r ∈ ex2) ->
  exists sb, process_game E ex2 i game st2 = Continue sb /\
             pending sb = pending st2.
Proof.
  unfold process_game. intros H1 Hnew Hsub Hknown.
  destruct (prepare E game) as [[| |t|t s exe dir app]|e];
    try discriminate; try (eexists; split; reflexivity).
  destruct (decide (SqlText s ∈ ex2)) as [Hin2|Hex2].
  { rewrite (bool_decide_eq_true_2 _ Hin2). eexists; split; reflexivity. }
  rewrite (bool_decide_eq_false_2 _ Hex2).
  rewrite bool_decide_eq_false_2 in H1 by (intros Hin; by apply Hex2, Hsub).
  destruct (get_heroic_game_config E app) as [heroic_config warnings].
  destruct (yaml_write E i); try (eexists; split; reflexivity).
  unfold insert_game in *.
  destruct (execute_insert E i t s _ exe dir) as [r| |e] eqn:Hx;
    [|eexists; split; reflexivity|discriminate].
  injection H1 as <-. cbn [pending] in Hnew.
  apply app_inv_head in Hnew. subst new_rows.
  exfalso. apply Hex2.
  apply execute_insert_inserted in Hx as (x & y & _ & _ & ->).
  apply (Hknown (new_row t s (config_slug_of E i s) x y)). left.
Qed.

Lemma rerun_loop (E : env) (ex1 ex2 : list sqlval) (games : list json) (i : nat)
    (st1 st1' st2 : state) (new_rows : list row) :
  run_loop E ex1 i games st1 = Continue st1' ->
  pending st1' = pending st1 ++ new_rows ->
  (forall v, v ∈ ex1 -> v ∈ ex2) ->
  (forall r, r ∈ new_rows -> slug r ∈ ex2) ->
  pending (state_of (run_loop E ex2 i games st2)) = pending st2.
Proof.
  revert i st1 st2 new_rows.
  induction games as [|game rest IH]; intros i st1 st2 new_rows; [reflexivity|].
  cbn [run_loop]. intros Hrun Hnew Hsub Hknown.
  destruct (process_game E ex1 i game st1) as [sa|] eqn:Hstep; [|discriminate].
  destruct (process_game_new_rows E ex1 i game st1) as (n1 & Hn1 & _).
  rewrite Hstep in Hn1. cbn [state_of] in Hn1.
  destruct (run_loop_continue_rows E ex1 rest (S i) sa st1' Hrun) as (n2 & Hn2).
  assert (new_rows = n1 ++ n2) as ->.
  { apply (app_inv_head (pending st1)). by rewrite <- Hnew, Hn2, Hn1, app_assoc. }
  destruct (rerun_step E ex1 ex2 i game st1 sa st2 n1 Hstep Hn1 Hsub) as (sb & -> & Hsb).
  { intros r Hr. apply Hknown, elem_of_app. by left. }
  rewrite <- Hsb. apply (IH (S i) sa sb n2 Hrun Hn2 Hsub).
  intros r Hr. apply Hknown, elem_of_app. by right.
Qed.

Lemma import_games_db (E : env) (heroic_data : json) (w : world) (games : list json) :
  (games ← py_get heroic_data (py "games") (JArr []); py_iter games) = Ok games ->
  db (import_games E heroic_data w)
  = match run_loop E (map slug (db w)) 0 games (initial_state w) with
    | Continue st => db w ++ pending st
    | Raised _ _ => db w
    end.
Proof.
  intros Hgames. unfold import_games, run_games. rewrite Hgames.
  by destruct (run_loop E (map slug (db w)) 0 games (initial_state w)).
Qed.

(** X14. Importing is idempotent on the catalog: a second run over the
    same manifest in the same environment, started from what the first run
    left, adds no row. *)
Theorem second_run_adds_nothing (E : env) (heroic_data : json) (w : world) :
  db (import_games E heroic_data (import_games E heroic_data w))
  = db (import_games E heroic_data w).
Proof.
  destruct (games ← py_get heroic_data (py "games") (JArr []); py_iter games)
    as [games|e] eqn:Hgames.
  2:{ unfold import_games at 1. unfold run_games. by rewrite Hgames. }
  set (w1 := import_games E heroic_data w).
  rewrite (import_games_db E heroic_data w1 games Hgames).
  pose proof (import_games_db E heroic_data w games Hgames) as Hdb1.
  fold w1 in Hdb1.
  destruct (run_loop E (map slug (db w)) 0 games (initial_state w))
    as [st|e st] eqn:Hrun.
  - assert (Hnone : pending (state_of
               (run_loop E (map slug (db w1)) 0 games (initial_state w1))) = []).
    { eapply (rerun_loop E (map slug (db w)) (map slug (db w1)) games 0
                (initial_state w) st (initial_state w1) (pending st) Hrun);
        [reflexivity| |].
      - intros v Hv. rewrite Hdb1, map_app. apply elem_of_app. by left.
      - intros r Hr. rewrite Hdb1, map_app. apply elem_of_app. right.
        by apply list_elem_of_fmap_2. }
    destruct (run_loop E (map slug (db w1)) 0 games (initial_state w1)) as [st2|e2 st2];
      [|reflexivity].
    cbn [state_of] in Hnone. by rewrite Hnone, app_nil_r.
  - rewrite Hdb1.
    destruct (run_loop_raised_any_state E (map slug (db w)) games 0
                (initial_state w) (initial_state w1) e st Hrun) as (s2 & Hs2).
    by rewrite Hs2.
Qed.

(** X15. An entry that is no object, an installed entry whose title is
    neither false nor a string, and an installed entry whose [install]
    member is no object (null, for one) make the iteration raise
    [AttributeError]; an installed entry without an install path whose
    executable is neither false nor a string makes it raise [TypeError]. *)
Theorem malformed_entry_raises (E : env) (game : json) :
  ((forall d, game <> JObj d) -> prepare E game = Raise AttributeError) /\
  (forall d title,
     game = JObj d ->
     truthy (default (JBool false) (dict_lookup (py "is_installed") d)) = true ->
     dict_lookup (py "title") d = Some title -> truthy title = true ->
     (forall t, title <> JStr t) ->
     prepare E game = Raise AttributeError) /\
  (forall d t install_info,
     game = JObj d ->
     truthy (default (JBool false) (dict_lookup (py "is_installed") d)) = true ->
     dict_lookup (py "title") d = Some (JStr t) -> t <> [] ->
     dict_lookup (py "install") d = Some install_info ->
     (forall inst, install_info <> JObj inst) ->
     prepare E game = Raise AttributeError) /\
  (forall d t inst exe,
     game = JObj d ->
     truthy (default (JBool false) (dict_lookup (py "is_installed") d)) = true ->
     dict_lookup (py "title") d = Some (JStr t) -> t <> [] ->
     dict_lookup (py "install") d = Some (JObj inst) ->
     dict_lookup (py "executable") inst = Some exe -> truthy exe = true ->
     (forall p, exe <> JStr p) ->
     truthy (default JNull (dict_lookup (py "path") inst)) = false ->
     prepare E game = Raise TypeError).
Proof.
  split; [|split; [|split]].
  - intros Hd. destruct game as [| | | | |d]; try reflexivity. by destruct (Hd d).
  - intros d title -> Hflag Htitle Htruthy Hstr. unfold prepare.
    cbn [py_get mbind result_bind]. rewrite Hflag, Htitle.
    cbn [default from_option id negb]. rewrite Htruthy. cbn [negb].
    destruct title as [| | |t| |]; try reflexivity. by destruct (Hstr t).
  - intros d t install_info -> Hflag Htitle Ht Hinst Hobj. unfold prepare.
    cbn [py_get mbind result_bind]. rewrite Hflag, Htitle, Hinst.
    cbn [default from_option id negb truthy].
    destruct t as [|c t]; [contradiction|].
    cbn [slug_of mbind result_bind].
    destruct install_info as [| | | | |inst]; try reflexivity. by destruct (Hobj inst).
  - intros d t inst exe -> Hflag Htitle Ht Hinst Hexe Htruthy Hstr Hpath.
    unfold prepare. cbn [py_get mbind result_bind]. rewrite Hflag, Htitle, Hinst.
    cbn [default from_option id negb truthy].
    destruct t as [|c t]; [contradiction|].
    cbn [slug_of mbind result_bind py_get]. rewrite Hexe.
    cbn [default from_option id]. rewrite Htruthy. cbn [negb].
    change (from_option id JNull (dict_lookup (py "path") inst))
      with (default JNull (dict_lookup (py "path") inst)).
    rewrite Hpath. cbn [negb].
    destruct exe as [| | |p| |]; try reflexivity. by destruct (Hstr p).
Qed.

Lemma malformed_entry_raises_witness :
  prepare (sample_env JNull) (JStr (py "foo")) = Raise AttributeError /\
  prepare (sample_env JNull) broken_entry = Raise AttributeError.
Proof.
  split.
  - apply (proj1 (malformed_entry_raises (sample_env JNull) (JStr (py "foo")))).
    discriminate.
  - apply (proj1 (proj2 (proj2 (malformed_entry_raises (sample_env JNull) broken_entry)))
             [(py "app_name", JStr (py "bar")); (py "title", JStr (py "Bar"));
              (py "is_installed", JBool true); (py "install", JNull)]
             (py "Bar") JNull); try reflexivity; discriminate.
Defined.

(** X16. One entry that raises, anywhere in the manifest, costs the whole
    run: the rows of the entries before it are not committed, the entries
    after it are never looked at, and the files written before it stay. *)
Theorem bad_entry_discards_run (E : env) (w : world)
    (before after : list json) (game : json) (e : exn) (sa : state) :
  run_loop E (map slug (db w)) 0 before (initial_state w) = Continue sa ->
  prepare E game = Raise e ->
  let w' := import_games E (manifest_of (before ++ game :: after)) w in
  db w' = db w /\
  config_files w' = files sa /\
  printed w' = console sa ++ [PrintTraceback e] /\
  w' = import_games E (manifest_of (before ++ [game])) w.
Proof.
  intros Hbefore Hbad.
  assert (Hrun : forall rest,
    run_games E (manifest_of (before ++ game :: rest)) w = Raised e sa).
  { intros rest. rewrite run_games_manifest, run_loop_app, Hbefore.
    cbn [run_loop]. unfold process_game. by rewrite Hbad. }
  cbn zeta. unfold import_games. rewrite !Hrun. cbn [db config_files printed]. auto.
Qed.

Lemma bad_entry_discards_run_witness :
  let w' := import_games (sample_env JNull)
              (manifest_of ([foo_entry] ++ broken_entry :: [foo_bar_entry])) empty_world in
  db w' = db empty_world /\
  config_files w' =
    files (state_of (run_loop (sample_env JNull) [] 0 [foo_entry]
                       (initial_state empty_world))) /\
  printed w' =
    console (state_of (run_loop (sample_env JNull) [] 0 [foo_entry]
                         (initial_state empty_world)))
    ++ [PrintTraceback AttributeError] /\
  w' = import_games (sample_env JNull) (manifest_of ([foo_entry] ++ [broken_entry]))
         empty_world.
Proof.
  apply (bad_entry_discards_run (sample_env JNull) empty_world [foo_entry]
           [foo_bar_entry] broken_entry AttributeError
           (state_of (run_loop (sample_env JNull) [] 0 [foo_entry]
                        (initial_state empty_world)))).
  - vm_compute. reflexivity.
  - reflexivity.
Defined.

(** ** Before the loop *)

(** X17. When the manifest is missing or unreadable, the database is
    missing, or no configuration directory is to be had, nothing is
    imported: no connection is opened, the catalog and the configuration
    files are as before.  The configuration directory is looked for first,
    so it is created all the same when it can be. *)
Theorem missing_prerequisite_aborts (E : env) (w : world) :
  heroic_library E = LibMissing \/ heroic_library E = LibUnreadable \/
  lutris_db_exists E = false \/ lutris_config_dir E = DirUnavailable ->
  let w' := add_heroic_games_to_lutris E w in
  db w' = db w /\
  config_files w' = config_files w /\
  connections w' = connections w /\
  dir_created w' = match lutris_config_dir E with
                   | DirCreated => true
                   | _ => dir_created w
                   end.
Proof.
  intros H. cbn zeta.
  unfold add_heroic_games_to_lutris, find_lutris_config_dir, library_exists,
    config_dir_available.
  destruct (heroic_library E) as [| |hd], (lutris_db_exists E), (lutris_config_dir E);
    cbn; auto; destruct H as [H|[H|[H|H]]]; discriminate.
Qed.

Lemma missing_prerequisite_aborts_witness :
  let E := {| lower_nonascii := uncased; yaml_path := fun config_slug => config_slug;
              clock := fun _ => 0%Z; yaml_write := fun _ => Written;
              db_insert := fun _ => InsertOk; heroic_config_file := fun _ => Absent;
              heroic_library := LibMissing; lutris_db_exists := true;
              lutris_config_dir := DirCreated |} in
  let w' := add_heroic_games_to_lutris E empty_world in
  db w' = db empty_world /\
  config_files w' = config_files empty_world /\
  connections w' = connections empty_world /\
  dir_created w' = true.
Proof.
  apply (missing_prerequisite_aborts
           {| lower_nonascii := uncased; yaml_path := fun config_slug => config_slug;
              clock := fun _ => 0%Z; yaml_write := fun _ => Written;
              db_insert := fun _ => InsertOk; heroic_config_file := fun _ => Absent;
              heroic_library := LibMissing; lutris_db_exists := true;
              lutris_config_dir := DirCreated |} empty_world).
  left. reflexivity.
Defined.

(** ** Option files *)

(** X18. A well-formed option file is carried over: the prefix of the
    config is the [winePrefix] of the game's section and the three flags
    are its [autoInstallDxvk], [enableEsync] and [enableFsync], null and
    False standing in for what is missing; nothing is printed. *)
Theorem options_carried_over (E : env) (app : pystr)
    (cfg g wv : list (pystr * json)) (exe : json) :
  heroic_config_file E (JStr app) = Parsed (JObj cfg) ->
  default (JObj []) (dict_lookup app cfg) = JObj g ->
  default (JObj []) (dict_lookup (py "wineVersion") g) = JObj wv ->
  (get_heroic_game_config E (JStr app)).2 = [] /\
  lutris_game_config exe (get_heroic_game_config E (JStr app)).1
  = JObj [(py "game",
           JObj [(py "exe", exe);
                 (py "prefix", default JNull (dict_lookup (py "winePrefix") g))]);
          (py "wine",
           JObj [(py "dxvk",
                  default (JBool false) (dict_lookup (py "autoInstallDxvk") g));
                 (py "esync",
                  default (JBool false) (dict_lookup (py "enableEsync") g));
                 (py "fsync",
                  default (JBool false) (dict_lookup (py "enableFsync") g))])].
Proof.
  intros Hfile Hg Hwv. unfold get_heroic_game_config. rewrite Hfile.
  unfold read_game_config. rewrite Hg. cbn [mbind result_bind py_get].
  rewrite Hwv. cbn [mbind result_bind py_get fst snd].
  split; reflexivity.
Qed.

Lemma options_carried_over_witness :
  let E := {| lower_nonascii := uncased; yaml_path := fun config_slug => config_slug;
              clock := fun _ => 0%Z; yaml_write := fun _ => Written;
              db_insert := fun _ => InsertOk;
              heroic_config_file := fun _ =>
                Parsed (JObj [(py "foo",
                               JObj [(py "winePrefix", JStr (py "/p/foo"));
                                     (py "enableEsync", JBool true)])]);
              heroic_library := LibMissing; lutris_db_exists := true;
              lutris_config_dir := DirFound |} in
  (get_heroic_game_config E (JStr (py "foo"))).2 = [] /\
  lutris_game_config (JStr (py "/g/foo.exe")) (get_heroic_game_config E (JStr (py "foo"))).1
  = JObj [(py "game",
           JObj [(py "exe", JStr (py "/g/foo.exe"));
                 (py "prefix", JStr (py "/p/foo"))]);
          (py "wine",
           JObj [(py "dxvk", JBool false); (py "esync", JBool true);
                 (py "fsync", JBool false)])].
Proof.
  apply (options_carried_over
           {| lower_nonascii := uncased; yaml_path := fun config_slug => config_slug;
              clock := fun _ => 0%Z; yaml_write := fun _ => Written;
              db_insert := fun _ => InsertOk;
              heroic_config_file := fun _ =>
                Parsed (JObj [(py "foo",
                               JObj [(py "winePrefix", JStr (py "/p/foo"));
                                     (py "enableEsync", JBool true)])]);
              heroic_library := LibMissing; lutris_db_exists := true;
              lutris_config_dir := DirFound |}
           (py "foo")
           [(py "foo", JObj [(py "winePrefix", JStr (py "/p/foo"));
                             (py "enableEsync", JBool true)])]
           [(py "winePrefix", JStr (py "/p/foo")); (py "enableEsync", JBool true)]
           [] (JStr (py "/g/foo.exe"))); reflexivity.
Defined.

(** X19. The Wine version of an option file is read and never written;
    yet when [wineVersion] is there and is no object, reading it raises,
    the warning is printed and all options of the game are lost, its
    prefix included. *)
Theorem bad_wine_version_voids_options (E : env) (app : pystr)
    (cfg g : list (pystr * json)) (v exe : json) :
  heroic_config_file E (JStr app) = Parsed (JObj cfg) ->
  dict_lookup app cfg = Some (JObj g) ->
  dict_lookup (py "wineVersion") g = Some v ->
  (forall wv, v <> JObj wv) ->
  get_heroic_game_config E (JStr app) = ([], [PrintConfigWarning (JStr app)]) /\
  lutris_game_config exe (get_heroic_game_config E (JStr app)).1
  = JObj [(py "game", JObj [(py "exe", exe); (py "prefix", JNull)]);
          (py "wine",
           JObj [(py "dxvk", JBool false); (py "esync", JBool false);
                 (py "fsync", JBool false)])].
Proof.
  intros Hfile Hg Hv Hobj.
  assert (Hcfg : get_heroic_game_config E (JStr app)
                 = ([], [PrintConfigWarning (JStr app)])).
  { unfold get_heroic_game_config. rewrite Hfile.
    unfold read_game_config. rewrite Hg. cbn [default from_option id mbind result_bind py_get].
    rewrite Hv. cbn [default from_option id].
    destruct v as [| | | | |wv]; try reflexivity. by destruct (Hobj wv). }
  rewrite Hcfg. split; reflexivity.
Qed.

Lemma bad_wine_version_voids_options_witness :
  let E := {| lower_nonascii := uncased; yaml_path := fun config_slug => config_slug;
              clock := fun _ => 0%Z; yaml_write := fun _ => Written;
              db_insert := fun _ => InsertOk;
              heroic_config_file := fun _ =>
                Parsed (JObj [(py "foo",
                               JObj [(py "winePrefix", JStr (py "/p/foo"));
                                     (py "wineVersion", JStr (py "wine-8"))])]);
              heroic_library := LibMissing; lutris_db_exists := true;
              lutris_config_dir := DirFound |} in
  get_heroic_game_config E (JStr (py "foo"))
  = ([], [PrintConfigWarning (JStr (py "foo"))]) /\
  lutris_game_config (JStr (py "/g/foo.exe")) (get_heroic_game_config E (JStr (py "foo"))).1
  = JObj [(py "game", JObj [(py "exe", JStr (py "/g/foo.exe")); (py "prefix", JNull)]);
          (py "wine",
           JObj [(py "dxvk", JBool false); (py "esync", JBool false);
                 (py "fsync", JBool false)])].
Proof.
  apply (bad_wine_version_voids_options
           {| lower_nonascii := uncased; yaml_path := fun config_slug => config_slug;
              clock := fun _ => 0%Z; yaml_write := fun _ => Written;
              db_insert := fun _ => InsertOk;
              heroic_config_file := fun _ =>
                Parsed (JObj [(py "foo",
                               JObj [(py "winePrefix", JStr (py "/p/foo"));
                                     (py "wineVersion", JStr (py "wine-8"))])]);
              heroic_library := LibMissing; lutris_db_exists := true;
              lutris_config_dir := DirFound |}
           (py "foo")
           [(py "foo", JObj [(py "winePrefix", JStr (py "/p/foo"));
                             (py "wineVersion", JStr (py "wine-8"))])]
           [(py "winePrefix", JStr (py "/p/foo"));
            (py "wineVersion", JStr (py "wine-8"))]
           (JStr (py "wine-8")) (JStr (py "/g/foo.exe")));
    try reflexivity.
  discriminate.
Defined.

(** ** The prompt *)

Lemma lower_is_y (L : pystr -> nat -> N -> pystr) (response : pystr) :
  is_ascii response ->
  lower L response = py "y" <-> response = py "y" \/ response = py "Y".
Proof.
  intros Ha. rewrite lower_ascii by exact Ha.
  change (py "y") with [121]. change (py "Y") with [89]. split.
  - destruct response as [|c [|c' r]]; try discriminate.
    cbn [map]. intros [= Hc]. unfold ascii_lower in Hc.
    destruct ((65 <=? c) && (c <=? 90)).
    + right. f_equal. lia.
    + left. f_equal. exact Hc.
  - intros [-> | ->]; reflexivity.
Qed.

(** X20. Among the answers made of ASCII characters, the import runs for
    y and for Y and for nothing else: yes, an empty line and everything
    else cancel. *)
Theorem only_y_proceeds (E : env) (response : pystr) (w : world) :
  is_ascii response ->
  main E response w
  = if bool_decide (response = py "y" \/ response = py "Y")
    then print [PrintDone]
           (add_heroic_games_to_lutris E (print [PrintBanner; PrintPrompt] w))
    else print [PrintCancelled] (print [PrintBanner; PrintPrompt] w).
Proof.
  intros Ha. unfold main.
  pose proof (lower_is_y (lower_nonascii E) response Ha) as Hy.
  do 2 case_bool_decide; tauto.
Qed.

Lemma only_y_proceeds_witness :
  main (sample_env JNull) (py "yes") empty_world
  = if bool_decide (py "yes" = py "y" \/ py "yes" = py "Y")
    then print [PrintDone]
           (add_heroic_games_to_lutris (sample_env JNull)
              (print [PrintBanner; PrintPrompt] empty_world))
    else print [PrintCancelled] (print [PrintBanner; PrintPrompt] empty_world).
Proof. apply only_y_proceeds. unfold is_ascii. repeat constructor. Defined.

(** ** The configuration directory *)

Lemma first_dir_spec (is_dir : pystr -> bool) (paths : list pystr) :
  match first_dir is_dir paths with
  | Some path =>
      exists earlier later,
        paths = earlier ++ path :: later /\ is_dir path = true /\
        Forall (fun q => is_dir q = false) earlier
  | None => Forall (fun q => is_dir q = false) paths
  end.
Proof.
  induction paths as [|p rest IH]; [constructor|].
  cbn [first_dir]. destruct (is_dir p) eqn:Hp.
  - exists [], rest. auto.
  - destruct (first_dir is_dir rest) as [path|].
    + destruct IH as (earlier & later & -> & Hpath & Hall).
      exists (p :: earlier), later. auto.
    + by constructor.
Qed.

(** X21. [find_lutris_config_dir] takes the first of its three candidates
    that is a directory, in the order native, XDG config, Flatpak; only
    when none is one does it create the native one, and it gives up only
    when that fails too. *)
Theorem config_dir_precedence (home_path : pystr -> pystr) (is_dir mkdir_ok : pystr -> bool) :
  match locate_config_dir home_path is_dir mkdir_ok with
  | (Some path, DirFound) =>
      exists earlier later,
        possible_paths home_path = earlier ++ path :: later /\
        is_dir path = true /\ Forall (fun q => is_dir q = false) earlier
  | (Some path, DirCreated) =>
      path = home_path (py ".local/share/lutris/games") /\
      mkdir_ok path = true /\
      Forall (fun q => is_dir q = false) (possible_paths home_path)
  | (None, DirUnavailable) =>
      mkdir_ok (home_path (py ".local/share/lutris/games")) = false /\
      Forall (fun q => is_dir q = false) (possible_paths home_path)
  | _ => False
  end.
Proof.
  unfold locate_config_dir.
  pose proof (first_dir_spec is_dir (possible_paths home_path)) as Hfirst.
  destruct (first_dir is_dir (possible_paths home_path)) as [path|]; [exact Hfirst|].
  destruct (mkdir_ok _) eqn:Hmk; auto.
Qed.
